(** * Recurrence resolution and projection engine of the calendar app

    Shallow embedding of
      - [shouldShowOnDate]  (utils/recurrence.ts),
      - [eventMarks]        (app/(tabs)/index.tsx, the calendar dots),
      - [upcomingEvents]    (app/(tabs)/summary.tsx, the upcoming list),
    together with the part of the JavaScript runtime and of date-fns these
    functions call. *)

From Stdlib Require Import ZArith Lia Bool Ascii String List.
From Stdlib Require Import DecimalString Sorting.Sorted.
From stdpp Require Import base strings gmap sorting.
Import ListNotations.

#[local] Open Scope Z_scope.
#[local] Unset Default Proof Using.

(* ===================================================================== *)
(** * JavaScript string primitives *)
(* ===================================================================== *)

(** Strings are sequences of code units; every string the engine handles
    (YYYY-MM-DD, HH:MM, recurrence tags) is ASCII, so a code unit is an
    [ascii] here. *)
Module JS.

(** [!s] on a string: only the empty string is falsy. *)
Definition truthy (s : string) : bool := negb (String.eqb s EmptyString).

(** [a === b] on strings. *)
Definition strictEq (a b : string) : bool := String.eqb a b.

(** [a > b] on strings: lexicographic on code units. *)
Definition gt (a b : string) : bool :=
  match String.compare a b with Gt => true | _ => false end.

(** [a.localeCompare(b)], as the sign of the result.  The host's
    collation is code-unit order on two strings of one stored form
    (YYYY-MM-DD, HH:MM), which differ in digits only, and puts the
    empty string first; it is not on other strings (['1:00'] sorts
    before ['10:00']).  The statements on the order of a sorted list
    assume the stored form. *)
Definition localeCompare (a b : string) : comparison := String.compare a b.

(** [arr.includes(x)] on an array of strings. *)
Definition includes (arr : list string) (x : string) : bool :=
  existsb (String.eqb x) arr.

(** [x ?? d]. *)
Definition nullish {A} (x : option A) (d : A) : A :=
  match x with Some v => v | None => d end.

End JS.

(* ===================================================================== *)
(** * Calendar dates (the part of date-fns the engine uses) *)
(* ===================================================================== *)

(** A JavaScript [Date] at local midnight is represented by its local
    calendar fields; an Invalid Date is [None] at the places that can
    produce one.  All functions below read local fields only, so the time
    zone does not appear. *)
Module DateFns.

Record Date := mkDate { year : Z; month : Z; day : Z }.

Definition isLeapYearIndex (y : Z) : bool :=
  (y mod 400 =? 0) || ((y mod 4 =? 0) && negb (y mod 100 =? 0)).

Definition daysInMonth (y m : Z) : Z :=
  if m =? 2 then (if isLeapYearIndex y then 29 else 28)
  else if (m =? 4) || (m =? 6) || (m =? 9) || (m =? 11) then 30
  else 31.

(** [validateDate] of parseISO. *)
Definition validDate (d : Date) : bool :=
  (1 <=? month d) && (month d <=? 12) &&
  (1 <=? day d) && (day d <=? daysInMonth (year d) (month d)).

(** ** Digits *)

Definition digitVal (c : ascii) : option Z :=
  let n := Z.of_N (N_of_ascii c) in
  if (48 <=? n) && (n <=? 57) then Some (n - 48) else None.

Definition digitChar (n : Z) : ascii := ascii_of_N (Z.to_N (48 + n)).

Definition num2 (a b : ascii) : option Z :=
  match digitVal a, digitVal b with
  | Some x, Some y => Some (10 * x + y)
  | _, _ => None
  end.

Definition num4 (a b c d : ascii) : option Z :=
  match num2 a b, num2 c d with
  | Some x, Some y => Some (100 * x + y)
  | _, _ => None
  end.

Definition isHyphen (c : ascii) : bool := Ascii.eqb c "-"%char.

(** ** parseISO

    The data model stores dates in the extended calendar form
    ([fecha: string // formato YYYY-MM-DD]).  On that form parseISO reads
    the three fields and validates them ([validateDate]): a month outside
    1..12 or a day that does not exist in its month gives an Invalid
    Date, and so does any string without digits in the date positions.
    The other ISO 8601 forms the library accepts (basic form, week and
    ordinal dates, times and offsets) are outside the data model, and
    this function answers [None] on them where the library has a Date:
    [Some] is the library's answer, [None] is not always.  The
    statements below either assume that the strings they parse are
    dates of the stored form, or are made over any parser
    ([Recurrence.shouldShowOnDateWith]). *)
Definition parseISO (s : string) : option Date :=
  match s with
  | String y1 (String y2 (String y3 (String y4 (String h1
    (String m1 (String m2 (String h2
    (String d1 (String d2 EmptyString))))))))) =>
      if isHyphen h1 && isHyphen h2 then
        match num4 y1 y2 y3 y4, num2 m1 m2, num2 d1 d2 with
        | Some y, Some m, Some d =>
            let dt := mkDate y m d in
            if validDate dt then Some dt else None
        | _, _, _ => None
        end
      else None
  | _ => None
  end.

(** [new Date(s + 'T00:00:00')]: local midnight of the calendar date
    [s].  The summary screen passes [today = format(new Date(),
    'yyyy-MM-dd')], always a date; on other strings the engines differ
    (an Invalid Date, or a day that rolls over into the next month),
    and [None] stands for the Invalid Date.  The statements that depend
    on it assume that [s] is a date. *)
Definition newDateAtMidnight (s : string) : option Date := parseISO s.

(** ** format(d, 'yyyy-MM-dd') *)

Definition pad2 (n : Z) : string :=
  String (digitChar (n / 10)) (String (digitChar (n mod 10)) EmptyString).

Definition decimal (n : Z) : string :=
  NilEmpty.string_of_uint (N.to_uint (Z.to_N n)).

(** [addLeadingZeros(n, 4)]. *)
Definition pad4 (n : Z) : string :=
  if n <=? 9999 then (pad2 (n / 100) ++ pad2 (n mod 100))%string
  else decimal n.

(** The [y] token prints the year of the era: [y] for [y > 0],
    [1 - y] otherwise. *)
Definition eraYear (y : Z) : Z := if 0 <? y then y else 1 - y.

Definition format (d : Date) : string :=
  (pad4 (eraYear (year d)) ++ "-" ++ pad2 (month d) ++ "-" ++ pad2 (day d))%string.

(** ** Day numbers

    Days since 1970-01-01 in the proleptic Gregorian calendar: the
    timestamp of the date in units of one day. *)
Definition dayNumber (d : Date) : Z :=
  let y := if month d <=? 2 then year d - 1 else year d in
  let era := y / 400 in
  let yoe := y - era * 400 in
  let mp := if month d <=? 2 then month d + 9 else month d - 3 in
  let doy := (153 * mp + 2) / 5 + day d - 1 in
  let doe := yoe * 365 + yoe / 4 - yoe / 100 + doy in
  era * 146097 + doe - 719468.

(** [a < b] on Date objects compares timestamps. *)
Definition before (a b : Date) : bool := dayNumber a <? dayNumber b.

(** [getDay]: 0 is Sunday. *)
Definition getDay (d : Date) : Z := (dayNumber d + 4) mod 7.

(** [getDate]: day of the month, 1..31. *)
Definition getDate (d : Date) : Z := day d.

(** [getMonth]: 0 is January. *)
Definition getMonth (d : Date) : Z := month d - 1.

(** [startOfWeek(d, { weekStartsOn })], as a day number. *)
Definition startOfWeek (weekStartsOn : Z) (d : Date) : Z :=
  let wd := getDay d in
  let diff := (if wd <? weekStartsOn then 7 else 0) + wd - weekStartsOn in
  dayNumber d - diff.

(** [differenceInCalendarWeeks(later, earlier, { weekStartsOn })]: the
    two week starts are a whole number of weeks apart, so the rounding
    of the quotient is exact. *)
Definition differenceInCalendarWeeks (weekStartsOn : Z) (later earlier : Date) : Z :=
  (startOfWeek weekStartsOn later - startOfWeek weekStartsOn earlier) / 7.

(** ** addDays / setDate(getDate() + n) *)

Definition nextDay (d : Date) : Date :=
  if day d <? daysInMonth (year d) (month d) then mkDate (year d) (month d) (day d + 1)
  else if month d <? 12 then mkDate (year d) (month d + 1) 1
  else mkDate (year d + 1) 1 1.

Definition prevDay (d : Date) : Date :=
  if 1 <? day d then mkDate (year d) (month d) (day d - 1)
  else if 1 <? month d then mkDate (year d) (month d - 1) (daysInMonth (year d) (month d - 1))
  else mkDate (year d - 1) 12 31.

Definition addDays (d : Date) (n : Z) : Date :=
  if 0 <=? n then Nat.iter (Z.to_nat n) nextDay d
  else Nat.iter (Z.to_nat (- n)) prevDay d.

End DateFns.

(* ===================================================================== *)
(** * The data model (lib/supabase.ts) *)
(* ===================================================================== *)

(** Modelled from the spec: the declaration of [Evento] at hand
    (lib/supabase.ts) stops at [hora_fin]; the fields [video_url],
    [recurrence] and [exception_dates] are the ones the code reads and
    writes ([event.recurrence ?? 'none'], [event.exception_dates.includes],
    the [updateEvent] call of the home screen) and the spec's data model
    names ([recurrenceKind], [exceptionDates]).  [recurrence] is a string
    cast from the store, [null] meaning ['none']; [exception_dates] is
    [null] or an array of date strings. *)
Record Evento := mkEvento {
  id : string;
  user_id : option string;
  titulo : string;
  descripcion : string;
  fecha : string;
  es_todo_el_dia : bool;
  hora_inicio : option string;
  hora_fin : option string;
  video_url : option string;
  recurrence : option string;
  exception_dates : option (list string)
}.

(** [e.recurrence ?? 'none']. *)
Definition recurrenceOf (e : Evento) : string := JS.nullish (recurrence e) "none"%string.

(* ===================================================================== *)
(** * utils/recurrence.ts *)
(* ===================================================================== *)

Module Recurrence.
Import DateFns.

(** [event.exception_dates && event.exception_dates.includes(target)]:
    an array, even empty, is truthy. *)
Definition isException (event : Evento) (targetDateStr : string) : bool :=
  match exception_dates event with
  | Some dates => JS.includes dates targetDateStr
  | None => false
  end.

(** The [switch (recurrence)] on two valid dates, [origin <= target]. *)
Definition matchesPattern (rec : string) (origin target : Date) : bool :=
  if JS.strictEq rec "daily" then true
  else if JS.strictEq rec "weekly" then getDay target =? getDay origin
  else if JS.strictEq rec "biweekly" then
    if negb (getDay target =? getDay origin) then false
    else
      let weeksDiff := differenceInCalendarWeeks 1 target origin in
      Z.rem weeksDiff 2 =? 0
  else if JS.strictEq rec "monthly" then getDate target =? getDate origin
  else if JS.strictEq rec "yearly" then
    (getDate target =? getDate origin) && (getMonth target =? getMonth origin)
  else false.

(** [shouldShowOnDate(event, targetDateStr)].  None of the operations
    in the [try] block raises on the typed input, so the [catch] branch
    (which also answers [false]) is never taken. *)
Definition shouldShowOnDate (event : Evento) (targetDateStr : string) : bool :=
  if negb (JS.truthy (fecha event)) || negb (JS.truthy targetDateStr) then false
  else if isException event targetDateStr then false
  else if JS.strictEq (fecha event) targetDateStr then true
  else
    let rec := recurrenceOf event in
    if JS.strictEq rec "none" then false
    else
      match parseISO (fecha event), parseISO targetDateStr with
      | Some origin, Some target =>
          if before target origin then false
          else matchesPattern rec origin target
      | _, _ => false
      end.

(** ** The predicate over any date library

    date-fns's [parseISO] accepts more than the stored form (basic
    form, week and ordinal dates, date-times, offsets).  The guards of
    the predicate do not depend on what it answers there: below, the
    library is a parameter, with [None] for an Invalid Date, and the
    body is the one of [shouldShowOnDate], which is the instance at the
    calendar dates of [DateFns]. *)
Section DateLibrary.
Variable D : Type.
Variable parse : string -> option D.
Variable isBefore : D -> D -> bool.
Variable pattern : string -> D -> D -> bool.

Definition shouldShowOnDateWith (event : Evento) (targetDateStr : string) : bool :=
  if negb (JS.truthy (fecha event)) || negb (JS.truthy targetDateStr) then false
  else if isException event targetDateStr then false
  else if JS.strictEq (fecha event) targetDateStr then true
  else
    let rec := recurrenceOf event in
    if JS.strictEq rec "none" then false
    else
      match parse (fecha event), parse targetDateStr with
      | Some origin, Some target =>
          if isBefore target origin then false
          else pattern rec origin target
      | _, _ => false
      end.

End DateLibrary.

Arguments shouldShowOnDateWith {D} _ _ _ _ _.

End Recurrence.

(* ===================================================================== *)
(** * app/(tabs)/index.tsx: the calendar dots *)
(* ===================================================================== *)

Module Home.
Import DateFns Recurrence.

Definition COLORS_primary : string := "#4A90D9".

Record Mark := mkMark { marked : bool; dotColor : string }.

Definition RANGE_DAYS : nat := 90.

(** [events.some((evt) => shouldShowOnDate(evt, dateStr))]. *)
Definition hasEvent (events : list Evento) (dateStr : string) : bool :=
  existsb (fun evt => shouldShowOnDate evt dateStr) events.

(** One turn of the [for] loop over the window. *)
Definition markDay (events : list Evento) (rangeStart : Date)
           (marks : gmap string Mark) (i : nat) : gmap string Mark :=
  let d := addDays rangeStart (Z.of_nat i) in
  let dateStr := format d in
  if hasEvent events dateStr
  then <[dateStr := mkMark true COLORS_primary]> marks
  else marks.

(** The window projector: [rangeLengthDays] consecutive dates from
    [rangeStart]. *)
Definition calendarMarks (events : list Evento) (rangeStart : Date)
           (rangeLengthDays : nat) : gmap string Mark :=
  fold_left (markDay events rangeStart) (seq 0 rangeLengthDays) ∅.

(** [eventMarks]: the window of 90 days that starts 45 days before
    [today = new Date()]. *)
Definition eventMarks (events : list Evento) (today : Date) : gmap string Mark :=
  calendarMarks events (addDays today (-45)) RANGE_DAYS.

End Home.

(* ===================================================================== *)
(** * app/(tabs)/summary.tsx: the upcoming list *)
(* ===================================================================== *)

Module Summary.
Import DateFns Recurrence.

Definition LOOK_AHEAD_DAYS : nat := 30.

(** [{ ...evt, _projectedDate }]. *)
Record Projected := mkProjected { evt : Evento; _projectedDate : string }.

(** [format] raises a RangeError on an Invalid Date. *)
Definition formatDate (d : option Date) : option string := format <$> d.

(** [d.setDate(d.getDate() + i)]; an Invalid Date stays invalid. *)
Definition setDatePlus (d : option Date) (i : nat) : option Date :=
  (fun d => addDays d (Z.of_nat i)) <$> d.

Definition isRecurring (e : Evento) : bool :=
  negb (JS.strictEq (recurrenceOf e) "none").

(** Paso A: the single events dated after today. *)
Definition singleEvents (events : list Evento) (today : string) : list Projected :=
  map (fun evt => mkProjected evt (fecha evt))
      (List.filter (fun e => JS.strictEq (recurrenceOf e) "none" && JS.gt (fecha e) today)
              events).

(** The body of the [for] loop of Paso B at offset [i]. *)
Definition projectDay (recurringEvents : list Evento) (todayDate : option Date)
           (i : nat) : option (list Projected) :=
  dateStr ← formatDate (setDatePlus todayDate i);
  Some (map (fun evt => mkProjected evt dateStr)
            (List.filter (fun evt => shouldShowOnDate evt dateStr) recurringEvents)).

(** The [for] loop: offsets in order, stopping at the first exception. *)
Fixpoint projectDays (recurringEvents : list Evento) (todayDate : option Date)
         (offsets : list nat) : option (list Projected) :=
  match offsets with
  | [] => Some []
  | i :: rest =>
      here ← projectDay recurringEvents todayDate i;
      later ← projectDays recurringEvents todayDate rest;
      Some (here ++ later)
  end.

(** Paso B: the recurring events, day by day over the lookahead. *)
Definition recurringProjections (events : list Evento) (today : string)
           (lookaheadDays : nat) : option (list Projected) :=
  let recurringEvents := List.filter isRecurring events in
  if (0 <? length recurringEvents)%nat then
    projectDays recurringEvents (newDateAtMidnight today) (seq 1 lookaheadDays)
  else Some [].

(** The comparator given to [sort]. *)
Definition compareProjected (a b : Projected) : comparison :=
  match JS.localeCompare (_projectedDate a) (_projectedDate b) with
  | Eq => JS.localeCompare (JS.nullish (hora_inicio (evt a)) "")
                           (JS.nullish (hora_inicio (evt b)) "")
  | c => c
  end.

(** [Array.prototype.sort(cmp)]: a stable sort; with a consistent
    comparator every stable sort returns this list. *)
Fixpoint insertSorted {A} (cmp : A -> A -> comparison) (x : A) (l : list A) : list A :=
  match l with
  | [] => [x]
  | y :: l' =>
      match cmp x y with
      | Gt => y :: insertSorted cmp x l'
      | _ => x :: l
      end
  end.

Definition sort {A} (cmp : A -> A -> comparison) (l : list A) : list A :=
  fold_right (insertSorted cmp) [] l.

Section Grouping.
(** The label is rendered by date-fns from the group date and the
    clock ("Manana, ..." for tomorrow); [None] is the RangeError that
    [format] raises when the group date is not a date. *)
Variable Label : Type.
Variable renderLabel : string -> option Label.

Record Group := mkGroup { date : string; label : Label; events : list Projected }.

(** [grouped[grouped.length - 1].events.push(evt)]; on an empty array
    the element is [undefined] and the access raises a TypeError. *)
Fixpoint pushToLast (grouped : list Group) (e : Projected) : option (list Group) :=
  match grouped with
  | [] => None
  | [g] => Some [mkGroup (date g) (label g) (events g ++ [e])]
  | g :: rest => (cons g) <$> pushToLast rest e
  end.

(** One turn of the grouping [forEach]; the state is the array and
    [currentDate]. *)
Definition groupStep (st : list Group * string) (e : Projected)
  : option (list Group * string) :=
  let '(grouped, currentDate) := st in
  st' ← (if negb (JS.strictEq (_projectedDate e) currentDate) then
           let currentDate := _projectedDate e in
           label ← renderLabel currentDate;
           Some (grouped ++ [mkGroup currentDate label []], currentDate)
         else Some (grouped, currentDate));
  grouped ← pushToLast (fst st') e;
  Some (grouped, snd st').

Fixpoint forEach (l : list Projected) (st : list Group * string)
  : option (list Group * string) :=
  match l with
  | [] => Some st
  | e :: rest => st' ← groupStep st e; forEach rest st'
  end.

Definition groupByDate (projectedEvents : list Projected) : option (list Group) :=
  fst <$> forEach projectedEvents ([], EmptyString).

(** The upcoming aggregator; [None] when the source raises. *)
Definition upcoming (events : list Evento) (today : string) (lookaheadDays : nat)
  : option (list Group) :=
  projected ← recurringProjections events today lookaheadDays;
  groupByDate (sort compareProjected (singleEvents events today ++ projected)).

(** [upcomingEvents] of the summary screen. *)
Definition upcomingEvents (events : list Evento) (today : string) : option (list Group) :=
  upcoming events today LOOK_AHEAD_DAYS.

End Grouping.

Arguments date {Label} _.
Arguments label {Label} _.
Arguments events {Label} _.
Arguments mkGroup {Label} _ _ _.

(** The occurrences of the output, in order. *)
Definition flatten {Label} (gs : list (Group Label)) : list Projected :=
  concat (map events gs).

End Summary.

(* ===================================================================== *)
(** * Vocabulary of the specification *)
(* ===================================================================== *)

(** [d ∈ e.exceptionDates]. *)
Definition excepted (e : Evento) (d : string) : Prop :=
  exists dates, exception_dates e = Some dates /\ In d dates.

(** The number of Monday-starting calendar weeks since the week of
    1970-01-01 (a Thursday, so that week's Monday is day -3). *)
Definition mondayWeekIndex (d : DateFns.Date) : Z := (DateFns.dayNumber d + 3) / 7.

(** The number of Monday-starting calendar weeks between two dates. *)
Definition weeksBetween (origin target : DateFns.Date) : Z :=
  mondayWeekIndex target - mondayWeekIndex origin.

(** The date read as the number YYYYMMDD; on valid dates it orders as
    the calendar does. *)
Definition dateOrdinal (d : DateFns.Date) : Z :=
  DateFns.year d * 10000 + DateFns.month d * 100 + DateFns.day d.

(** [startTime-or-empty-string]. *)
Definition startTimeOrEmpty (p : Summary.Projected) : string :=
  JS.nullish (hora_inicio (Summary.evt p)) EmptyString.

(** An event given by the fields the engine reads; the payload fields are
    fixed. *)
Definition eventOf (i f : string) (h r : option string) (x : option (list string)) : Evento :=
  mkEvento i None "evento" "" f (match h with None => true | Some _ => false end)
           h None None r x.

(** A label renderer that never fails, for running the aggregator. *)
Definition dateAsLabel (d : string) : option string := Some d.

(** Sample collections. *)
Definition sampleEvents : list Evento :=
  [ eventOf "a" "2030-01-01" None None None;
    eventOf "b" "2024-01-10" (Some "09:00"%string) (Some "weekly"%string)
            (Some ["2024-01-24"%string]);
    eventOf "c" "2024-01-17" None None None;
    eventOf "d" "2024-01-03" (Some "08:30"%string) (Some "weekly"%string) None ].

Definition dailyExceptedOrigin : Evento :=
  eventOf "1" "2024-01-01" None (Some "daily"%string) (Some ["2024-01-01"%string]).

Definition corruptWeekly : Evento :=
  eventOf "2" "2024-02-30" None (Some "weekly"%string) None.

Definition singleExceptedOrigin : Evento :=
  eventOf "3" "2024-01-01" None None (Some ["2024-01-01"%string]).

Definition singleEvent : Evento :=
  eventOf "4" "2024-01-01" None None (Some ["2024-01-05"%string]).

Definition biweeklyEvent : Evento :=
  eventOf "5" "2024-01-01" None (Some "biweekly"%string) None.

Definition monthlyEvent : Evento :=
  eventOf "6" "2024-01-31" None (Some "monthly"%string) None.

Definition farFutureSingle : Evento := eventOf "a" "2030-01-01" None None None.

Definition exceptedSingle : Evento :=
  eventOf "c" "2024-01-17" None None (Some ["2024-01-17"%string]).

(** The upcoming list of the sample collection on 2024-01-15. *)
Definition sampleUpcoming : list (Summary.Group string) :=
  Eval vm_compute in
    match Summary.upcoming string dateAsLabel sampleEvents "2024-01-15" 30 with
    | Some gs => gs
    | None => []
    end.

Definition strLt (a b : string) : Prop := String.compare a b = Lt.
Definition strLe (a b : string) : Prop := String.compare a b <> Gt.

(** Within a date: ascending start times, the time-less first. *)
Definition timeLe (a b : Summary.Projected) : Prop :=
  strLe (startTimeOrEmpty a) (startTimeOrEmpty b) /\
  (hora_inicio (Summary.evt b) = None -> startTimeOrEmpty a = EmptyString).

(** Ascending order on the pair (projectedDate, startTime-or-empty). *)
Definition pairLe (a b : Summary.Projected) : Prop :=
  strLt (Summary._projectedDate a) (Summary._projectedDate b) \/
  (Summary._projectedDate a = Summary._projectedDate b /\
   strLe (startTimeOrEmpty a) (startTimeOrEmpty b)).

(** ** The stored form of dates and times

    The data model stores [fecha] as YYYY-MM-DD and [hora_inicio] as a
    24-hour HH:MM string or null.  Two strings of one such form differ
    in digits only, so that [localeCompare] orders them by code units
    under any collation, and an empty string comes before both; on
    strings of other forms (['1:00'] against ['10:00']) the host's
    collation decides, and the statements on the order of a list are
    made for collections in the stored form. *)
Definition isDateString (s : string) : bool :=
  match DateFns.parseISO s with Some _ => true | None => false end.

(** The minutes after midnight that an HH:MM string names. *)
Definition clock (s : string) : option Z :=
  match s with
  | String h1 (String h2 (String c (String m1 (String m2 EmptyString)))) =>
      if Ascii.eqb c ":" then
        match DateFns.num2 h1 h2, DateFns.num2 m1 m2 with
        | Some h, Some m => if (h <=? 23) && (m <=? 59) then Some (60 * h + m) else None
        | _, _ => None
        end
      else None
  | _ => None
  end.

Definition isTimeString (s : string) : bool :=
  match clock s with Some _ => true | None => false end.

(** [hora_inicio] is null or an HH:MM string. *)
Definition storedTime (e : Evento) : bool :=
  match hora_inicio e with
  | Some s => isTimeString s
  | None => true
  end.

(** [fecha] is a calendar date and [hora_inicio] a time or null. *)
Definition storedForm (e : Evento) : bool := isDateString (fecha e) && storedTime e.

(** The start of an event in minutes after midnight, an event without
    a start time counting as before every time of the day. *)
Definition startMinutes (e : Evento) : Z :=
  match hora_inicio e with
  | Some s => match clock s with Some m => m | None => -1 end
  | None => -1
  end.

(* ===================================================================== *)
(** * More of the JavaScript runtime *)
(* ===================================================================== *)

Module JSString.

(** White space and line terminators among the code units below 256:
    TAB, LF, VT, FF, CR, SP and NBSP. *)
Definition isWhiteSpace (c : ascii) : bool :=
  let n := N_of_ascii c in
  ((9 <=? n) && (n <=? 13) || (n =? 32) || (n =? 160))%N.

Fixpoint trimStart (s : string) : string :=
  match s with
  | EmptyString => EmptyString
  | String c rest => if isWhiteSpace c then trimStart rest else s
  end.

Fixpoint trimEnd (s : string) : string :=
  match s with
  | EmptyString => EmptyString
  | String c rest =>
      match trimEnd rest with
      | EmptyString => if isWhiteSpace c then EmptyString else String c EmptyString
      | kept => String c kept
      end
  end.

(** [s.trim()]. *)
Definition trim (s : string) : string := trimEnd (trimStart s).

(** [s.startsWith(p)]. *)
Fixpoint startsWith (s p : string) {struct p} : bool :=
  match p with
  | EmptyString => true
  | String c p' =>
      match s with
      | EmptyString => false
      | String d s' => Ascii.eqb c d && startsWith s' p'
      end
  end.

(** [s || null] on a string. *)
Definition orNull (s : string) : option string :=
  if JS.truthy s then Some s else None.

End JSString.

(* ===================================================================== *)
(** * The day list (summary.tsx [todayEvents], index.tsx [dayEvents]) *)
(* ===================================================================== *)

Module DayList.
Import Recurrence.

(** The comparator of both lists: an all-day event goes after a timed
    one, otherwise the start times decide. *)
Definition compareDay (a b : Evento) : comparison :=
  if es_todo_el_dia a && negb (es_todo_el_dia b) then Gt
  else if negb (es_todo_el_dia a) && es_todo_el_dia b then Lt
  else JS.localeCompare (JS.nullish (hora_inicio a) "") (JS.nullish (hora_inicio b) "").

(** [events.filter((e) => shouldShowOnDate(e, today)).sort(...)]. *)
Definition todayEvents (events : list Evento) (today : string) : list Evento :=
  Summary.sort compareDay (List.filter (fun e => shouldShowOnDate e today) events).

(** The same expression on the home screen, for the selected date. *)
Definition dayEvents (events : list Evento) (selectedDate : string) : list Evento :=
  todayEvents events selectedDate.

(** [modalDateEvents]: the filter alone. *)
Definition modalDateEvents (events : list Evento) (modalSelectedDate : string) : list Evento :=
  List.filter (fun e => shouldShowOnDate e modalSelectedDate) events.

End DayList.

(* ===================================================================== *)
(** * index.tsx: marked dates, week strip, form handlers *)
(* ===================================================================== *)

Module HomeScreen.
Import DateFns Recurrence Home.

(** An entry of [markedDates]; [selected] and [selectedColor] are
    optional properties. *)
Record MarkedDate := mkMarkedDate {
  md_marked : bool;
  md_dotColor : string;
  md_selectedColor : option string;
  md_selected : option bool
}.

(** An entry of [eventMarks] seen at the type of [markedDates]. *)
Definition ofMark (m : Mark) : MarkedDate :=
  mkMarkedDate (marked m) (dotColor m) None None.

(** [markedDates]: a copy of [eventMarks] with the selected day
    highlighted. *)
Definition markedDates (eventMarks : gmap string Mark) (selectedDate : string)
  : gmap string MarkedDate :=
  let marks := ofMark <$> eventMarks in
  if JS.truthy selectedDate then
    <[selectedDate :=
        mkMarkedDate
          (JS.nullish (md_marked <$> marks !! selectedDate) false)
          (JS.nullish (md_dotColor <$> marks !! selectedDate) COLORS_primary)
          (Some COLORS_primary)
          (Some true)]> marks
  else marks.

(** [startOfWeek(d, { weekStartsOn })] as a date: [setDate(getDate() - diff)]. *)
Definition startOfWeekDate (weekStartsOn : Z) (d : Date) : Date :=
  let wd := getDay d in
  let diff := (if wd <? weekStartsOn then 7 else 0) + wd - weekStartsOn in
  addDays d (- diff).

(** [getWeekDays(startDate)]. *)
Definition getWeekDays (startDate : Date) : list Date :=
  let start := startOfWeekDate 1 startDate in
  map (fun i => addDays start (Z.of_nat i)) (seq 0 7).

(** [addWeeks(d, n)]. *)
Definition addWeeks (d : Date) (n : Z) : Date := addDays d (n * 7).

Definition handlePrevWeek (currentWeekStart : Date) : Date := addWeeks currentWeekStart (-1).
Definition handleNextWeek (currentWeekStart : Date) : Date := addWeeks currentWeekStart 1.

(** [confirmCalendarSelection]: the new [selectedDate] and
    [currentWeekStart]; the week start of an Invalid Date is invalid. *)
Definition confirmCalendarSelection (modalSelectedDate : string) : string * option Date :=
  (modalSelectedDate, startOfWeekDate 1 <$> newDateAtMidnight modalSelectedDate).

(** ** Date-times of the event form

    A [Date] with a time of day, as its local timestamp in milliseconds
    (no daylight saving). *)
Definition MS_PER_HOUR : Z := 3600000.
Definition MS_PER_DAY : Z := 86400000.

(** [buildDateAtHour(dateStr, hour)]. *)
Definition buildDateAtHour (dateStr : string) (hour : Z) : option Z :=
  (fun d => dayNumber d * MS_PER_DAY + hour * MS_PER_HOUR) <$> newDateAtMidnight dateStr.

(** [addHours(d, n)]. *)
Definition addHours (d : Z) (n : Z) : Z := d + n * MS_PER_HOUR.

Definition getHours (d : Z) : Z := (d mod MS_PER_DAY) / MS_PER_HOUR.
Definition getMinutes (d : Z) : Z := (d mod MS_PER_HOUR) / 60000.

(** [format(d, 'HH:mm')]. *)
Definition formatHHmm (d : Z) : string :=
  (pad2 (getHours d) ++ ":" ++ pad2 (getMinutes d))%string.

(** The two pickers of the form. *)
Record TimeRange := mkTimeRange { fechaInicio : Z; fechaFin : Z }.

(** [handleStartDateChange(_event, date)]; [None] is [undefined]. *)
Definition handleStartDateChange (st : TimeRange) (date : option Z) : TimeRange :=
  match date with
  | None => st
  | Some date =>
      if fechaFin st <=? date
      then mkTimeRange date (addHours date 1)
      else mkTimeRange date (fechaFin st)
  end.

(** [handleEndDateChange(_event, date)]. *)
Definition handleEndDateChange (st : TimeRange) (date : option Z) : TimeRange :=
  match date with
  | None => st
  | Some date =>
      if date <=? fechaInicio st
      then mkTimeRange (fechaInicio st) (addHours (fechaInicio st) 1)
      else mkTimeRange (fechaInicio st) date
  end.

(** [resetEventModal] / [handleAddNew]: nine to ten on the selected date. *)
Definition defaultRange (selectedDate : string) : option TimeRange :=
  match buildDateAtHour selectedDate 9, buildDateAtHour selectedDate 10 with
  | Some a, Some b => Some (mkTimeRange a b)
  | _, _ => None
  end.

(** ** Joining a video call *)

Inductive JoinResult :=
| JoinAlert (message : string)
| JoinOpen (url : string)
| JoinNothing.

(** The link given to [Linking.openURL]. *)
Definition safeUrlOf (url : string) : string :=
  let safeUrl := JSString.trim url in
  if negb (JSString.startsWith safeUrl "http://") && negb (JSString.startsWith safeUrl "https://")
  then ("https://" ++ safeUrl)%string
  else safeUrl.

(** [handleJoinVideo(url)] of the home screen, up to what [openURL]
    does with the link. *)
Definition handleJoinVideo (url : option string) : JoinResult :=
  match url with
  | None => JoinAlert "No hay enlace de videollamada."
  | Some url =>
      if negb (JS.truthy url) || negb (JS.truthy (JSString.trim url))
      then JoinAlert "No hay enlace de videollamada."
      else JoinOpen (safeUrlOf url)
  end.

(** The join button of the summary screen: shown for a truthy
    [video_url] only, silent on a blank one. *)
Definition summaryJoinVideo (url : option string) : JoinResult :=
  match url with
  | None => JoinNothing
  | Some url =>
      if negb (JS.truthy url) || negb (JS.truthy (JSString.trim url))
      then JoinNothing
      else JoinOpen (safeUrlOf url)
  end.

(** ** Saving the event form *)

Record EventForm := mkEventForm {
  f_titulo : string;
  f_descripcion : string;
  f_esTodoDia : bool;
  f_range : TimeRange;
  f_videoUrl : string;
  f_recurrence : string;
  f_editingEvent : option Evento
}.

(** The argument of [addEvent]. *)
Record NewEvent := mkNewEvent {
  n_titulo : string;
  n_descripcion : string;
  n_fecha : string;
  n_es_todo_el_dia : bool;
  n_hora_inicio : option string;
  n_hora_fin : option string;
  n_video_url : option string;
  n_recurrence : string
}.

Inductive SaveCall :=
| NoSave
| CallUpdateEvent (evento : Evento)
| CallAddEvent (params : NewEvent).

(** [handleSave]: the call it makes to the events hook. *)
Definition handleSave (form : EventForm) (selectedDate : string) : SaveCall :=
  if negb (JS.truthy (JSString.trim (f_titulo form))) then NoSave
  else
    let fechaStr := selectedDate in
    let horaInicioStr := formatHHmm (fechaInicio (f_range form)) in
    let horaFinStr := formatHHmm (fechaFin (f_range form)) in
    match f_editingEvent form with
    | Some editingEvent =>
        CallUpdateEvent
          (mkEvento (id editingEvent) (user_id editingEvent)
                    (JSString.trim (f_titulo form))
                    (JSString.trim (f_descripcion form))
                    fechaStr
                    (f_esTodoDia form)
                    (if f_esTodoDia form then None else Some horaInicioStr)
                    (if f_esTodoDia form then None else Some horaFinStr)
                    (JSString.orNull (JSString.trim (f_videoUrl form)))
                    (Some (f_recurrence form))
                    (exception_dates editingEvent))
    | None =>
        CallAddEvent
          (mkNewEvent (JSString.trim (f_titulo form))
                      (JSString.trim (f_descripcion form))
                      fechaStr
                      (f_esTodoDia form)
                      (if f_esTodoDia form then None else Some horaInicioStr)
                      (if f_esTodoDia form then None else Some horaFinStr)
                      (JSString.orNull (JSString.trim (f_videoUrl form)))
                      (f_recurrence form))
    end.

(** The fields either call carries, read uniformly: title, date,
    all-day flag, start, end and video link. *)
Definition savedFields (c : SaveCall)
  : option (string * string * bool * option string * option string * option string) :=
  match c with
  | NoSave => None
  | CallUpdateEvent e =>
      Some (titulo e, fecha e, es_todo_el_dia e, hora_inicio e, hora_fin e, video_url e)
  | CallAddEvent p =>
      Some (n_titulo p, n_fecha p, n_es_todo_el_dia p, n_hora_inicio p, n_hora_fin p,
            n_video_url p)
  end.

End HomeScreen.

(* ===================================================================== *)
(** * hooks/useTodos.ts and the task lists of the summary

    The hook in the version that keeps [allTodos], the one the summary
    screen reads. *)
(* ===================================================================== *)

Module Todos.

Record Todo := mkTodo {
  id : string;
  user_id : option string;
  titulo : string;
  fecha : string;
  completado : bool
}.

(** The state of one instance of the hook: every component that calls
    [useTodos] holds its own four cells. *)
Record State := mkState {
  todos : list Todo;
  allTodos : list Todo;
  loading : bool;
  error : option string
}.

(** What the store answers to an update: success, or an error, with its
    message when it is an [Error] object. *)
Inductive Outcome :=
| Done
| Failed (message : option string).

(** [{ ...t, completado }] and [{ ...t, titulo }]. *)
Definition withCompletado (t : Todo) (c : bool) : Todo :=
  mkTodo (id t) (user_id t) (titulo t) (fecha t) c.

Definition withTitulo (t : Todo) (nuevoTitulo : string) : Todo :=
  mkTodo (id t) (user_id t) nuevoTitulo (fecha t) (completado t).

(** [toggleTodo(id, completadoActual)], given the answer of the store. *)
Definition toggleTodo (i : string) (completadoActual : bool) (answer : Outcome)
           (st : State) : State :=
  match answer with
  | Failed message =>
      mkState (todos st) (allTodos st) (loading st)
              (Some (JS.nullish message "Error al actualizar tarea"))
  | Done =>
      mkState
        (if negb completadoActual
         then List.filter (fun t => negb (JS.strictEq (id t) i)) (todos st)
         else todos st)
        (map (fun t => if JS.strictEq (id t) i
                       then withCompletado t (negb completadoActual) else t)
             (allTodos st))
        (loading st) None
  end.

(** [updateTodo(id, nuevoTitulo)]. *)
Definition updateTodo (i : string) (nuevoTitulo : string) (answer : Outcome)
           (st : State) : State :=
  match answer with
  | Failed message =>
      mkState (todos st) (allTodos st) (loading st)
              (Some (JS.nullish message "Error al editar tarea"))
  | Done =>
      mkState
        (map (fun t => if JS.strictEq (id t) i then withTitulo t nuevoTitulo else t)
             (todos st))
        (map (fun t => if JS.strictEq (id t) i then withTitulo t nuevoTitulo else t)
             (allTodos st))
        (loading st) None
  end.

(** The two lists of the summary screen. *)
Definition pendingTodos (allTodos : list Todo) : list Todo :=
  List.filter (fun t => negb (completado t)) allTodos.

Definition completedTodos (allTodos : list Todo) : list Todo :=
  List.filter (fun t => completado t) allTodos.

End Todos.

(* ===================================================================== *)
(** * More sample data *)
(* ===================================================================== *)

Definition dailyEvent : Evento :=
  eventOf "7" "2024-01-01" None (Some "daily"%string) None.

Definition weeklyEvent : Evento :=
  eventOf "8" "2024-01-01" None (Some "weekly"%string) None.

Definition yearlyEvent : Evento :=
  eventOf "9" "2024-02-29" None (Some "yearly"%string) None.

Definition hourlyEvent : Evento :=
  eventOf "10" "2024-01-01" None (Some "hourly"%string) None.

Definition weeklyWithException : Evento :=
  eventOf "b" "2024-01-10" None (Some "weekly"%string) (Some ["2024-01-24"%string]).

Definition weeklyWithoutException : Evento :=
  eventOf "b" "2024-01-10" None (Some "weekly"%string) None.

Definition weeklyWednesday : Evento :=
  eventOf "d" "2024-01-03" (Some "08:30"%string) (Some "weekly"%string) None.

(** The form while editing [weeklyWithException] on another day. *)
Definition sampleEditForm : HomeScreen.EventForm :=
  HomeScreen.mkEventForm "  Clase de yoga " "" false
    (HomeScreen.mkTimeRange 0 HomeScreen.MS_PER_HOUR) "meet.example.com/yoga "
    "weekly" (Some weeklyWithException).

Definition sampleTodo : Todos.Todo :=
  Todos.mkTodo "t1" None "Comprar pan" "2024-01-15" true.

Definition sampleTodoState : Todos.State :=
  Todos.mkState []
    [Todos.mkTodo "t0" None "Llamar" "2024-01-15" false; sampleTodo]
    false None.

(** The order of the day list: timed events first, then all-day ones,
    each class by ascending start time. *)
Definition dayLe (a b : Evento) : Prop :=
  (es_todo_el_dia a = false /\ es_todo_el_dia b = true) \/
  (es_todo_el_dia a = es_todo_el_dia b /\
   strLe (JS.nullish (hora_inicio a) EmptyString) (JS.nullish (hora_inicio b) EmptyString)).

(** The same order read on the clock: timed events first, then all-day
    ones, each class by ascending minutes after midnight. *)
Definition dayOrder (a b : Evento) : Prop :=
  (es_todo_el_dia a = false /\ es_todo_el_dia b = true) \/
  (es_todo_el_dia a = es_todo_el_dia b /\ startMinutes a <= startMinutes b).

(* ===================================================================== *)
(** * Facts about the JavaScript primitives *)
(* ===================================================================== *)

Lemma truthy_true (s : string) : JS.truthy s = true <-> s <> EmptyString.
Proof.
  unfold JS.truthy. destruct (String.eqb_spec s EmptyString); simpl; split; congruence.
Qed.

Lemma includes_In (xs : list string) (x : string) :
  JS.includes xs x = true <-> In x xs.
Proof.
  unfold JS.includes. rewrite existsb_exists. split.
  - intros [y [Hy Heq]]. apply String.eqb_eq in Heq. now subst.
  - intros H. exists x. split; [assumption | apply String.eqb_refl].
Qed.

Lemma isException_excepted (e : Evento) (d : string) :
  Recurrence.isException e d = true <-> excepted e d.
Proof.
  unfold Recurrence.isException, excepted. destruct (exception_dates e) as [dates|].
  - rewrite includes_In. split.
    + intros H. exists dates. now split.
    + intros [ds [Heq Hin]]. now inversion Heq; subst.
  - split; [discriminate | intros [ds [Heq _]]; discriminate].
Qed.

Lemma isException_false (e : Evento) (d : string) :
  Recurrence.isException e d = false <-> ~ excepted e d.
Proof.
  rewrite <- isException_excepted. destruct (Recurrence.isException e d); split; congruence.
Qed.

Lemma strictEq_true (a b : string) : JS.strictEq a b = true <-> a = b.
Proof. apply String.eqb_eq. Qed.

Lemma strictEq_false (a b : string) : JS.strictEq a b = false <-> a <> b.
Proof. apply String.eqb_neq. Qed.

(** JavaScript's [n % 2 === 0] on an integer is evenness. *)
Lemma rem2_even (n : Z) : (Z.rem n 2 =? 0) = Z.even n.
Proof.
  destruct (Z.even n) eqn:He.
  - apply Z.eqb_eq. apply Z.even_spec in He. destruct He as [k ->].
    rewrite Z.mul_comm. apply Z.rem_mul. lia.
  - apply Z.eqb_neq. intros Hr.
    assert (Hn : n = 2 * Z.quot n 2) by (pose proof (Z.quot_rem' n 2); lia).
    assert (Z.even n = true) by (apply Z.even_spec; now exists (Z.quot n 2)).
    congruence.
Qed.

(* ===================================================================== *)
(** * Facts about the calendar *)
(* ===================================================================== *)

Section CalendarFacts.
Import DateFns.

Lemma parseISO_valid (s : string) (d : Date) :
  parseISO s = Some d -> validDate d = true.
Proof.
  unfold parseISO.
  repeat (destruct s as [|? s]; try discriminate).
  destruct (isHyphen _ && isHyphen _); try discriminate.
  destruct (num4 _ _ _ _); try discriminate.
  destruct (num2 _ _); try discriminate.
  destruct (num2 _ _); try discriminate.
  simpl. destruct (validDate _) eqn:Hv; try discriminate.
  intros H. now inversion H; subst.
Qed.

Lemma validDate_day_le (d : Date) :
  validDate d = true -> 1 <= day d <= daysInMonth (year d) (month d).
Proof. unfold validDate. lia. Qed.

(** The start of the Monday week is the Monday of [mondayWeekIndex]. *)
Lemma startOfWeek_monday (d : Date) :
  startOfWeek 1 d = 7 * mondayWeekIndex d - 3.
Proof.
  unfold startOfWeek, mondayWeekIndex, getDay.
  generalize (dayNumber d). intros n.
  destruct ((n + 4) mod 7 <? 1) eqn:Hlt;
    [apply Z.ltb_lt in Hlt | apply Z.ltb_ge in Hlt];
    pose proof (Z.div_mod (n + 4) 7 ltac:(lia));
    pose proof (Z.mod_pos_bound (n + 4) 7 ltac:(lia));
    pose proof (Z.div_mod (n + 3) 7 ltac:(lia));
    pose proof (Z.mod_pos_bound (n + 3) 7 ltac:(lia));
    lia.
Qed.

(** [differenceInCalendarWeeks] with Monday weeks counts the calendar
    weeks between the two dates; its quotient by 7 is exact. *)
Lemma differenceInCalendarWeeks_weeksBetween (target origin : Date) :
  differenceInCalendarWeeks 1 target origin = weeksBetween origin target.
Proof.
  unfold differenceInCalendarWeeks, weeksBetween.
  rewrite !startOfWeek_monday.
  replace (7 * mondayWeekIndex target - 3 - (7 * mondayWeekIndex origin - 3))
    with ((mondayWeekIndex target - mondayWeekIndex origin) * 7) by lia.
  apply Z.div_mul. lia.
Qed.

(** On equal weekdays the week count is the day count over seven. *)
Lemma weeksBetween_same_weekday (origin target : Date) :
  getDay target = getDay origin ->
  dayNumber target - dayNumber origin = 7 * weeksBetween origin target.
Proof.
  unfold getDay, weeksBetween, mondayWeekIndex.
  generalize (dayNumber target) (dayNumber origin). intros t o H.
  pose proof (Z.div_mod (t + 4) 7 ltac:(lia)).
  pose proof (Z.mod_pos_bound (t + 4) 7 ltac:(lia)).
  pose proof (Z.div_mod (o + 4) 7 ltac:(lia)).
  pose proof (Z.mod_pos_bound (o + 4) 7 ltac:(lia)).
  pose proof (Z.div_mod (t + 3) 7 ltac:(lia)).
  pose proof (Z.mod_pos_bound (t + 3) 7 ltac:(lia)).
  pose proof (Z.div_mod (o + 3) 7 ltac:(lia)).
  pose proof (Z.mod_pos_bound (o + 3) 7 ltac:(lia)).
  lia.
Qed.

End CalendarFacts.

(* ===================================================================== *)
(** * The occurrence predicate *)
(* ===================================================================== *)

Section Occurrence.
Import DateFns Recurrence.

(** The predicate after its guards: the exact match, or a recurrence
    match on two valid dates. *)
Lemma shouldShowOnDate_unfold (e : Evento) (d : string) :
  fecha e <> EmptyString -> d <> EmptyString -> ~ excepted e d ->
  shouldShowOnDate e d =
    if JS.strictEq (fecha e) d then true
    else if JS.strictEq (recurrenceOf e) "none" then false
    else match parseISO (fecha e), parseISO d with
         | Some origin, Some target =>
             if before target origin then false
             else matchesPattern (recurrenceOf e) origin target
         | _, _ => false
         end.
Proof.
  intros Hf Hd Hx. unfold shouldShowOnDate.
  apply truthy_true in Hf. apply truthy_true in Hd.
  apply isException_false in Hx. rewrite Hf, Hd, Hx. reflexivity.
Qed.

Lemma shouldShowOnDate_true_guards (e : Evento) (d : string) :
  shouldShowOnDate e d = true ->
  fecha e <> EmptyString /\ d <> EmptyString /\ ~ excepted e d.
Proof.
  unfold shouldShowOnDate.
  destruct (JS.truthy (fecha e)) eqn:Hf; simpl; try discriminate.
  destruct (JS.truthy d) eqn:Hd; simpl; try discriminate.
  destruct (isException e d) eqn:Hx; try discriminate.
  intros _. repeat split.
  - now apply truthy_true.
  - now apply truthy_true.
  - now apply isException_false.
Qed.

Lemma parseISO_nonempty (s : string) (d : Date) :
  parseISO s = Some d -> s <> EmptyString.
Proof. intros H ->. discriminate. Qed.

(** C1. A date listed in the event's exception dates is never an
    occurrence, whatever the recurrence and even when it is the origin
    date: the exception test comes before the exact-match shortcut. *)
Theorem exception_suppresses (e : Evento) (d : string) :
  excepted e d -> shouldShowOnDate e d = false.
Proof.
  intros Hx. apply isException_excepted in Hx. unfold shouldShowOnDate.
  destruct (negb (JS.truthy (fecha e)) || negb (JS.truthy d)); [reflexivity|].
  now rewrite Hx.
Qed.

Lemma exception_suppresses_witness :
  excepted dailyExceptedOrigin (fecha dailyExceptedOrigin) /\
  shouldShowOnDate dailyExceptedOrigin (fecha dailyExceptedOrigin) = false.
Proof.
  assert (Hx : excepted dailyExceptedOrigin (fecha dailyExceptedOrigin)).
  { exists ["2024-01-01"%string]. split; [reflexivity | now left]. }
  split; [exact Hx | exact (exception_suppresses _ _ Hx)].
Defined.

(** The predicate on calendar dates is the predicate over a date
    library, at the library of [DateFns]. *)
Lemma shouldShowOnDate_instance (e : Evento) (d : string) :
  shouldShowOnDate e d = shouldShowOnDateWith parseISO before matchesPattern e d.
Proof. reflexivity. Qed.

(** When the library reads no date from the origin, or none from the
    target, the exact-match shortcut is all that is left: the event
    occurs on the target exactly when the target is the origin string,
    non-empty and not excepted. *)
Lemma shouldShowOnDateWith_unread {D : Type} (parse : string -> option D)
      (isBefore : D -> D -> bool) (pattern : string -> D -> D -> bool)
      (e : Evento) (d : string) :
  parse (fecha e) = None \/ parse d = None ->
  (shouldShowOnDateWith parse isBefore pattern e d = true <->
   d = fecha e /\ d <> EmptyString /\ ~ excepted e d).
Proof.
  intros Hp. unfold shouldShowOnDateWith. split.
  - destruct (JS.truthy (fecha e)) eqn:Hf; simpl; [|discriminate].
    destruct (JS.truthy d) eqn:Hd; simpl; [|discriminate].
    destruct (isException e d) eqn:Hx; [discriminate|].
    destruct (JS.strictEq (fecha e) d) eqn:Heq.
    + intros _. apply strictEq_true in Heq. apply truthy_true in Hd.
      apply isException_false in Hx. now subst.
    + destruct (JS.strictEq (recurrenceOf e) "none"); [discriminate|].
      destruct Hp as [-> | Hp]; [discriminate|]. rewrite Hp.
      now destruct (parse (fecha e)).
  - intros (-> & Hd & Hx). apply truthy_true in Hd. apply isException_false in Hx.
    rewrite Hd, Hx. simpl. unfold JS.strictEq. now rewrite String.eqb_refl.
Qed.

(** C2. An event whose origin string the date library does not read as
    a date never occurs: the predicate answers false on every target
    that is a date, and more generally on every target other than the
    origin string itself, whatever the recurrence and whatever the
    library answers on other strings. *)
Theorem corrupt_origin_fails_closed {D : Type} (parse : string -> option D)
        (isBefore : D -> D -> bool) (pattern : string -> D -> D -> bool)
        (e : Evento) (d : string) :
  parse (fecha e) = None ->
  is_Some (parse d) \/ d <> fecha e ->
  shouldShowOnDateWith parse isBefore pattern e d = false.
Proof.
  intros Ho Hd.
  destruct (shouldShowOnDateWith parse isBefore pattern e d) eqn:Hs; [|reflexivity].
  apply (shouldShowOnDateWith_unread parse isBefore pattern e d (or_introl Ho)) in Hs.
  destruct Hs as (Heq & _ & _). exfalso.
  destruct Hd as [[tg Htg] | Hne]; [|contradiction].
  rewrite Heq, Ho in Htg. discriminate.
Qed.

Lemma corrupt_origin_fails_closed_witness :
  shouldShowOnDate corruptWeekly "2024-03-01" = false.
Proof.
  rewrite shouldShowOnDate_instance.
  apply (corrupt_origin_fails_closed parseISO before matchesPattern corruptWeekly "2024-03-01").
  - reflexivity.
  - left. now exists (mkDate 2024 3 1).
Defined.

(** C3, as stated, fails: a non-recurring event whose origin date is
    listed among its exception dates does not occur on its origin. *)
Lemma non_recurring_counterexample :
  ~ (forall e : Evento,
        recurrenceOf e = "none"%string ->
        shouldShowOnDate e (fecha e) = true /\
        forall d, d <> fecha e -> shouldShowOnDate e d = false).
Proof.
  intros H.
  destruct (H singleExceptedOrigin eq_refl) as [H1 _].
  vm_compute in H1. discriminate.
Qed.

(** C3, amended. A non-recurring event occurs on its origin date when
    that date is present and not excepted, and on no other date. *)
Theorem non_recurring_exactly_origin (e : Evento) :
  recurrenceOf e = "none"%string ->
  (fecha e <> EmptyString -> ~ excepted e (fecha e) ->
   shouldShowOnDate e (fecha e) = true) /\
  (forall d, d <> fecha e -> shouldShowOnDate e d = false).
Proof.
  intros Hr. split.
  - intros Hf Hx. rewrite (shouldShowOnDate_unfold e (fecha e) Hf Hf Hx).
    unfold JS.strictEq. now rewrite String.eqb_refl.
  - intros d Hd. destruct (shouldShowOnDate e d) eqn:Hs; [|reflexivity].
    destruct (shouldShowOnDate_true_guards e d Hs) as (Hf & Hd' & Hx).
    rewrite (shouldShowOnDate_unfold e d Hf Hd' Hx), Hr in Hs.
    destruct (JS.strictEq (fecha e) d) eqn:Heq.
    + apply strictEq_true in Heq. congruence.
    + discriminate.
Qed.

Lemma non_recurring_exactly_origin_witness :
  recurrenceOf singleEvent = "none"%string /\
  shouldShowOnDate singleEvent "2024-01-01" = true /\
  shouldShowOnDate singleEvent "2024-01-02" = false.
Proof.
  split; [reflexivity|].
  destruct (non_recurring_exactly_origin singleEvent eq_refl) as [H1 H2]. split.
  - apply H1.
    + discriminate.
    + intros [ds [Heq Hin]]. inversion Heq; subst.
      destruct Hin as [Hin | []]. discriminate.
  - apply H2. discriminate.
Defined.

(** The recurrence test of an event on a target that passed the guards
    and is not the origin string. *)
Lemma shouldShowOnDate_pattern (e : Evento) (t : string) (o tg : Date) :
  parseISO (fecha e) = Some o -> parseISO t = Some tg ->
  dayNumber o <= dayNumber tg -> ~ excepted e t ->
  recurrenceOf e <> "none"%string ->
  shouldShowOnDate e t =
    if JS.strictEq (fecha e) t then true else matchesPattern (recurrenceOf e) o tg.
Proof.
  intros Ho Ht Hle Hx Hr.
  rewrite (shouldShowOnDate_unfold e t (parseISO_nonempty _ _ Ho)
             (parseISO_nonempty _ _ Ht) Hx).
  apply strictEq_false in Hr. rewrite Hr, Ho, Ht.
  unfold before. destruct (Z.ltb_spec (dayNumber tg) (dayNumber o)); [lia|].
  reflexivity.
Qed.

(** What the biweekly test computes, in the vocabulary of calendar
    weeks. *)
Lemma biweekly_test (e : Evento) (t : string) (o tg : Date) :
  recurrenceOf e = "biweekly"%string ->
  parseISO (fecha e) = Some o -> parseISO t = Some tg ->
  dayNumber o <= dayNumber tg -> ~ excepted e t ->
  (shouldShowOnDate e t = true <->
   getDay tg = getDay o /\ Z.even (weeksBetween o tg) = true).
Proof.
  intros Hr Ho Ht Hle Hx.
  rewrite (shouldShowOnDate_pattern e t o tg Ho Ht Hle Hx) by (rewrite Hr; discriminate).
  rewrite Hr. unfold matchesPattern. simpl.
  rewrite rem2_even, differenceInCalendarWeeks_weeksBetween.
  destruct (JS.strictEq (fecha e) t) eqn:Heq.
  - apply strictEq_true in Heq. rewrite Heq, Ht in Ho. inversion Ho; subst.
    unfold weeksBetween. rewrite Z.sub_diag. now split.
  - destruct (Z.eqb_spec (getDay tg) (getDay o)) as [Hd | Hd]; simpl.
    + split; [now split | now intros [_ H]].
    + split; [discriminate | now intros [H _]].
Qed.

(** C6. A biweekly event, on a valid target on or after its valid
    origin and not excepted, occurs exactly when the weekdays agree and
    the number of Monday-starting calendar weeks between the two dates
    is even; from the Monday 2024-01-01 it does not occur on
    2024-01-08 and occurs on 2024-01-15. *)
Theorem biweekly_rule (e : Evento) (t : string) (o tg : Date) :
  recurrenceOf e = "biweekly"%string ->
  parseISO (fecha e) = Some o -> parseISO t = Some tg ->
  dayNumber o <= dayNumber tg -> ~ excepted e t ->
  (shouldShowOnDate e t = true <->
   getDay tg = getDay o /\ Z.even (weeksBetween o tg) = true) /\
  (fecha e = "2024-01-01"%string ->
   getDay o = 1 /\
   (t = "2024-01-08"%string -> shouldShowOnDate e t = false) /\
   (t = "2024-01-15"%string -> shouldShowOnDate e t = true)).
Proof.
  intros Hr Ho Ht Hle Hx.
  pose proof (biweekly_test e t o tg Hr Ho Ht Hle Hx) as Hiff.
  split; [exact Hiff|].
  intros Hf. rewrite Hf in Ho. vm_compute in Ho. inversion Ho; subst o.
  split; [reflexivity|]. split; intros ->; vm_compute in Ht; inversion Ht; subst tg.
  - destruct (shouldShowOnDate e "2024-01-08"); [|reflexivity].
    destruct (proj1 Hiff eq_refl) as [_ Hev]. vm_compute in Hev. discriminate.
  - apply Hiff. split; reflexivity.
Qed.

Lemma biweekly_rule_witness :
  shouldShowOnDate biweeklyEvent "2024-01-15" = true.
Proof.
  assert (Hx : ~ excepted biweeklyEvent "2024-01-15").
  { intros [ds [Heq _]]. discriminate. }
  assert (Hle : dayNumber (mkDate 2024 1 1) <= dayNumber (mkDate 2024 1 15)).
  { vm_compute. discriminate. }
  destruct (biweekly_rule biweeklyEvent "2024-01-15" (mkDate 2024 1 1) (mkDate 2024 1 15)
              eq_refl eq_refl eq_refl Hle Hx) as [_ H].
  exact (proj2 (proj2 (H eq_refl)) eq_refl).
Defined.

(** A biweekly event recurs exactly every fourteen days. *)
Corollary biweekly_every_fourteen_days (e : Evento) (t : string) (o tg : Date) :
  recurrenceOf e = "biweekly"%string ->
  parseISO (fecha e) = Some o -> parseISO t = Some tg ->
  dayNumber o <= dayNumber tg -> ~ excepted e t ->
  (shouldShowOnDate e t = true <-> (dayNumber tg - dayNumber o) mod 14 = 0).
Proof.
  intros Hr Ho Ht Hle Hx.
  rewrite (biweekly_test e t o tg Hr Ho Ht Hle Hx). split.
  - intros [Hd He]. rewrite (weeksBetween_same_weekday o tg Hd).
    apply Z.even_spec in He. destruct He as [k ->].
    replace (7 * (2 * k)) with (k * 14) by lia. apply Z.mod_mul. lia.
  - intros Hm.
    assert (Hd : getDay tg = getDay o).
    { unfold getDay.
      pose proof (Z.div_mod (dayNumber tg - dayNumber o) 14 ltac:(lia)) as H14.
      rewrite Hm in H14.
      replace (dayNumber tg + 4)
        with (dayNumber o + 4 + (2 * ((dayNumber tg - dayNumber o) / 14)) * 7) by lia.
      apply Z.mod_add. lia. }
    split; [exact Hd|].
    pose proof (weeksBetween_same_weekday o tg Hd) as Hw.
    pose proof (Z.div_mod (dayNumber tg - dayNumber o) 14 ltac:(lia)) as H14.
    rewrite Hm in H14. apply Z.even_spec.
    exists ((dayNumber tg - dayNumber o) / 14). lia.
Qed.

(** C7. A monthly event, on a valid target on or after its valid origin
    that is neither excepted nor the origin itself, occurs exactly when
    the days of the month agree; a target month without the origin's
    day never matches; from 2024-01-31 it does not occur on 2024-02-29
    and occurs on 2024-03-31. *)
Theorem monthly_rule (e : Evento) (t : string) (o tg : Date) :
  recurrenceOf e = "monthly"%string ->
  parseISO (fecha e) = Some o -> parseISO t = Some tg ->
  dayNumber o <= dayNumber tg -> ~ excepted e t -> t <> fecha e ->
  (shouldShowOnDate e t = true <-> getDate tg = getDate o) /\
  (daysInMonth (year tg) (month tg) < getDate o -> shouldShowOnDate e t = false) /\
  (fecha e = "2024-01-31"%string ->
   (t = "2024-02-29"%string -> shouldShowOnDate e t = false) /\
   (t = "2024-03-31"%string -> shouldShowOnDate e t = true)).
Proof.
  intros Hr Ho Ht Hle Hx Hne.
  assert (Hs : shouldShowOnDate e t = (getDate tg =? getDate o)).
  { rewrite (shouldShowOnDate_pattern e t o tg Ho Ht Hle Hx) by (rewrite Hr; discriminate).
    assert (Hq : JS.strictEq (fecha e) t = false) by (apply strictEq_false; congruence).
    rewrite Hq, Hr. reflexivity. }
  rewrite Hs. split; [apply Z.eqb_eq|]. split.
  - intros Hlt. apply Z.eqb_neq.
    pose proof (validDate_day_le tg (parseISO_valid t tg Ht)). unfold getDate in *. lia.
  - intros Hf. rewrite Hf in Ho.
    split; intros ->; vm_compute in Ho, Ht; inversion Ho; inversion Ht; subst;
      reflexivity.
Qed.

Lemma monthly_rule_witness :
  shouldShowOnDate monthlyEvent "2024-02-29" = false /\
  shouldShowOnDate monthlyEvent "2024-03-31" = true.
Proof.
  assert (Hx : forall t, ~ excepted monthlyEvent t).
  { intros t [ds [Heq _]]. discriminate. }
  split.
  - assert (Hle : dayNumber (mkDate 2024 1 31) <= dayNumber (mkDate 2024 2 29)).
    { vm_compute. discriminate. }
    destruct (monthly_rule monthlyEvent "2024-02-29" (mkDate 2024 1 31) (mkDate 2024 2 29)
                eq_refl eq_refl eq_refl Hle (Hx _)) as (_ & _ & H).
    + discriminate.
    + exact (proj1 (H eq_refl) eq_refl).
  - assert (Hle : dayNumber (mkDate 2024 1 31) <= dayNumber (mkDate 2024 3 31)).
    { vm_compute. discriminate. }
    destruct (monthly_rule monthlyEvent "2024-03-31" (mkDate 2024 1 31) (mkDate 2024 3 31)
                eq_refl eq_refl eq_refl Hle (Hx _)) as (_ & _ & H).
    + discriminate.
    + exact (proj2 (H eq_refl) eq_refl).
Defined.

(** The dated examples of the other recurrence kinds. *)
Example daily_examples :
  let e := eventOf "7" "2024-01-01" None (Some "daily"%string) None in
  shouldShowOnDate e "2024-01-01" = true /\ shouldShowOnDate e "2024-01-02" = true /\
  shouldShowOnDate e "2024-06-15" = true /\ shouldShowOnDate e "2023-12-31" = false.
Proof. repeat split. Qed.

Example weekly_examples :
  let e := eventOf "8" "2024-01-01" None (Some "weekly"%string) None in
  shouldShowOnDate e "2024-01-08" = true /\ shouldShowOnDate e "2024-01-15" = true /\
  shouldShowOnDate e "2024-01-02" = false.
Proof. repeat split. Qed.

Example yearly_examples :
  let e := eventOf "9" "2024-02-29" None (Some "yearly"%string) None in
  shouldShowOnDate e "2025-02-28" = false /\ shouldShowOnDate e "2028-02-29" = true.
Proof. repeat split. Qed.

End Occurrence.

(* ===================================================================== *)
(** * The window projector *)
(* ===================================================================== *)

Section WindowProjector.
Import DateFns Recurrence Home.

Variable events : list Evento.
Variable rangeStart : Date.

(** The date string tested at offset [i] of the window. *)
Let dateAt (i : nat) : string := format (addDays rangeStart (Z.of_nat i)).

Lemma hasEvent_exists (d : string) :
  hasEvent events d = true <-> exists e, In e events /\ shouldShowOnDate e d = true.
Proof. unfold hasEvent. apply existsb_exists. Qed.

(** What the loop leaves at key [d], from any starting map. *)
Lemma markDay_fold_lookup (offsets : list nat) (marks : gmap string Mark) (d : string) :
  fold_left (markDay events rangeStart) offsets marks !! d =
    if existsb (fun i => String.eqb (dateAt i) d) offsets && hasEvent events d
    then Some (mkMark true COLORS_primary)
    else marks !! d.
Proof.
  revert marks. induction offsets as [|i rest IH]; intros marks; simpl.
  - reflexivity.
  - rewrite IH. unfold markDay. fold (dateAt i).
    destruct (String.eqb_spec (dateAt i) d) as [Heq | Hne]; simpl.
    + subst d. destruct (hasEvent events (dateAt i)) eqn:Hh.
      * rewrite andb_true_r.
        destruct (existsb _ rest); [reflexivity | apply lookup_insert_eq].
      * now rewrite andb_false_r.
    + destruct (existsb _ rest && hasEvent events d); [reflexivity|].
      destruct (hasEvent events (dateAt i)); [|reflexivity].
      now apply lookup_insert_ne.
Qed.

Lemma dateAt_in_window (n i : nat) :
  (i < n)%nat -> existsb (fun j => String.eqb (dateAt j) (dateAt i)) (seq 0 n) = true.
Proof.
  intros Hi. apply existsb_exists. exists i. split.
  - apply in_seq. lia.
  - apply String.eqb_refl.
Qed.

(** C8. On each of the [rangeLengthDays] consecutive dates from
    [rangeStart], the map of marks holds a mark set to true exactly when
    some event of the collection occurs on that date; a date of the range
    on which no event occurs has no mark. *)
Theorem calendarMarks_iff_some_event (rangeLengthDays i : nat) :
  (i < rangeLengthDays)%nat ->
  let d := format (addDays rangeStart (Z.of_nat i)) in
  let marks := calendarMarks events rangeStart rangeLengthDays in
  ((exists m, marks !! d = Some m /\ marked m = true) <->
   (exists e, In e events /\ shouldShowOnDate e d = true)) /\
  ((forall e, In e events -> shouldShowOnDate e d = false) -> marks !! d = None).
Proof.
  intros Hi d marks. subst marks. unfold calendarMarks.
  rewrite markDay_fold_lookup. fold (dateAt i) in d. subst d.
  rewrite (dateAt_in_window _ _ Hi), lookup_empty. simpl.
  rewrite <- hasEvent_exists. split.
  - destruct (hasEvent events (dateAt i)).
    + split; [reflexivity|]. intros _. now exists (mkMark true COLORS_primary).
    + split; [|discriminate]. intros [m [Hm _]]. discriminate.
  - intros Hnone. destruct (hasEvent events (dateAt i)) eqn:Hh; [|reflexivity].
    apply hasEvent_exists in Hh. destruct Hh as [e [Hin Hs]].
    rewrite (Hnone e Hin) in Hs. discriminate.
Qed.

End WindowProjector.

(** The calendar of the home screen is the window of 90 days that starts
    45 days before today. *)
Lemma eventMarks_window (events : list Evento) (today : DateFns.Date) :
  Home.eventMarks events today =
  Home.calendarMarks events (DateFns.addDays today (-45)) 90.
Proof. reflexivity. Qed.

(* ===================================================================== *)
(** * The order on strings *)
(* ===================================================================== *)

Lemma string_compare_refl (s : string) : String.compare s s = Eq.
Proof.
  induction s as [|c s IH]; simpl; [reflexivity|].
  unfold Ascii.compare. now rewrite N.compare_refl.
Qed.

Lemma string_compare_eq (a b : string) : String.compare a b = Eq <-> a = b.
Proof.
  split; [apply String.compare_eq_iff | intros ->; apply string_compare_refl].
Qed.

Lemma ascii_compare_lt_trans (a b c : ascii) :
  Ascii.compare a b = Lt -> Ascii.compare b c = Lt -> Ascii.compare a c = Lt.
Proof.
  unfold Ascii.compare. rewrite !N.compare_lt_iff. apply N.lt_trans.
Qed.

Lemma string_compare_lt_trans (a b c : string) :
  strLt a b -> strLt b c -> strLt a c.
Proof.
  unfold strLt. revert b c.
  induction a as [|x a IH]; intros [|y b] [|z c]; simpl; try congruence.
  destruct (Ascii.compare x y) eqn:Hxy; try discriminate;
    destruct (Ascii.compare y z) eqn:Hyz; try discriminate.
  - apply Ascii.compare_eq_iff in Hxy, Hyz. subst.
    unfold Ascii.compare. rewrite N.compare_refl. apply IH.
  - apply Ascii.compare_eq_iff in Hxy. subst. now rewrite Hyz.
  - apply Ascii.compare_eq_iff in Hyz. subst. now rewrite Hxy.
  - now rewrite (ascii_compare_lt_trans x y z Hxy Hyz).
Qed.

Lemma strLe_cases (a b : string) : strLe a b <-> strLt a b \/ a = b.
Proof.
  unfold strLe, strLt. rewrite <- string_compare_eq.
  destruct (String.compare a b); split; intros H; try congruence; auto.
  - destruct H; discriminate.
Qed.

Lemma strLe_refl (a : string) : strLe a a.
Proof. apply strLe_cases. now right. Qed.

Lemma strLe_trans (a b c : string) : strLe a b -> strLe b c -> strLe a c.
Proof.
  rewrite !strLe_cases. intros [Hab | ->] [Hbc | ->]; auto.
  left. exact (string_compare_lt_trans a b c Hab Hbc).
Qed.

Lemma strLt_le_trans (a b c : string) : strLt a b -> strLe b c -> strLt a c.
Proof.
  rewrite strLe_cases. intros Hab [Hbc | ->]; [|assumption].
  exact (string_compare_lt_trans a b c Hab Hbc).
Qed.

Lemma strLe_lt_trans (a b c : string) : strLe a b -> strLt b c -> strLt a c.
Proof.
  rewrite strLe_cases. intros [Hab | ->] Hbc; [|assumption].
  exact (string_compare_lt_trans a b c Hab Hbc).
Qed.

Lemma strLt_irrefl (a : string) : ~ strLt a a.
Proof. unfold strLt. rewrite string_compare_refl. discriminate. Qed.

Lemma string_compare_gt_lt (a b : string) :
  String.compare a b = Gt <-> strLt b a.
Proof.
  unfold strLt. rewrite (String.compare_antisym b a).
  destruct (String.compare a b); simpl; split; congruence.
Qed.

Lemma strLe_total (a b : string) : strLe a b \/ strLe b a.
Proof.
  destruct (String.compare a b) eqn:H.
  - left. unfold strLe. congruence.
  - left. unfold strLe. congruence.
  - right. apply string_compare_gt_lt in H. apply strLe_cases. now left.
Qed.

(** The empty string precedes every string. *)
Lemma strLe_empty (a : string) : strLe EmptyString a.
Proof. unfold strLe. destruct a; simpl; discriminate. Qed.

Lemma strLe_empty_inv (a : string) : strLe a EmptyString -> a = EmptyString.
Proof. unfold strLe. destruct a; simpl; congruence. Qed.

Lemma gt_true (a b : string) : JS.gt a b = true <-> strLt b a.
Proof.
  unfold JS.gt. rewrite <- string_compare_gt_lt.
  destruct (String.compare a b); split; congruence.
Qed.

Lemma gt_false (a b : string) : JS.gt a b = false <-> strLe a b.
Proof.
  unfold JS.gt, strLe. destruct (String.compare a b); split; congruence.
Qed.

(* ===================================================================== *)
(** * The comparator and the sort *)
(* ===================================================================== *)

Section Sorting.
Import Summary.

(** The comparator answers "not greater" exactly on ascending pairs. *)
Lemma compareProjected_pairLe (a b : Projected) :
  compareProjected a b <> Gt <-> pairLe a b.
Proof.
  unfold compareProjected, pairLe, JS.localeCompare, strLt, strLe.
  fold (startTimeOrEmpty a) (startTimeOrEmpty b).
  rewrite <- string_compare_eq.
  destruct (String.compare (_projectedDate a) (_projectedDate b)); split; intros H.
  - right. now split.
  - destruct H as [H | [_ H]]; [discriminate | exact H].
  - now left.
  - discriminate.
  - congruence.
  - destruct H as [H | [H _]]; discriminate.
Qed.

Lemma pairLe_total (a b : Projected) : pairLe a b \/ pairLe b a.
Proof.
  unfold pairLe.
  destruct (String.compare (_projectedDate a) (_projectedDate b)) eqn:H.
  - apply string_compare_eq in H.
    destruct (strLe_total (startTimeOrEmpty a) (startTimeOrEmpty b)); auto.
  - left. now left.
  - right. left. now apply string_compare_gt_lt.
Qed.

Lemma pairLe_trans (a b c : Projected) : pairLe a b -> pairLe b c -> pairLe a c.
Proof.
  unfold pairLe. intros [Hab | [Eab Hab]] [Hbc | [Ebc Hbc]].
  - left. exact (string_compare_lt_trans _ _ _ Hab Hbc).
  - left. now rewrite <- Ebc.
  - left. now rewrite Eab.
  - right. split; [congruence | exact (strLe_trans _ _ _ Hab Hbc)].
Qed.

Lemma pairLe_date (a b : Projected) :
  pairLe a b -> strLe (_projectedDate a) (_projectedDate b).
Proof.
  intros [H | [H _]]; apply strLe_cases; auto.
Qed.

Lemma compareProjected_gt (a b : Projected) :
  compareProjected a b = Gt -> pairLe b a.
Proof.
  intros H. destruct (pairLe_total a b) as [Hab | Hba]; [|assumption].
  apply compareProjected_pairLe in Hab. congruence.
Qed.

#[local] Instance pairLe_transitive : Transitive pairLe.
Proof. exact pairLe_trans. Qed.

Lemma insertSorted_Permutation {A} (cmp : A -> A -> comparison) (x : A) (l : list A) :
  Permutation (insertSorted cmp x l) (x :: l).
Proof.
  induction l as [|y l IH]; simpl.
  - reflexivity.
  - destruct (cmp x y); try reflexivity.
    rewrite IH. apply perm_swap.
Qed.

Lemma sort_Permutation {A} (cmp : A -> A -> comparison) (l : list A) :
  Permutation (sort cmp l) l.
Proof.
  induction l as [|x l IH]; simpl.
  - reflexivity.
  - rewrite insertSorted_Permutation. now constructor.
Qed.

Lemma sort_In {A} (cmp : A -> A -> comparison) (l : list A) (x : A) :
  In x (sort cmp l) <-> In x l.
Proof.
  split; apply Permutation_in; [|symmetry]; apply sort_Permutation.
Qed.

Lemma insertSorted_Sorted (x : Projected) (l : list Projected) :
  Sorted pairLe l -> Sorted pairLe (insertSorted compareProjected x l).
Proof.
  induction l as [|y l IH]; intros Hs; simpl.
  - repeat constructor.
  - destruct (compareProjected x y) eqn:Hc.
    + constructor; [assumption|]. constructor.
      apply compareProjected_pairLe. congruence.
    + constructor; [assumption|]. constructor.
      apply compareProjected_pairLe. congruence.
    + inversion Hs as [|? ? Hs' Hhd]; subst. constructor; [now apply IH|].
      destruct l as [|z l]; simpl.
      * constructor. now apply compareProjected_gt.
      * destruct (compareProjected x z); constructor;
          try (now apply compareProjected_gt); now inversion Hhd.
Qed.

(** The sorted array is ascending on every pair of positions. *)
Lemma sort_StronglySorted (l : list Projected) :
  StronglySorted pairLe (sort compareProjected l).
Proof.
  apply Sorted_StronglySorted; [exact pairLe_trans|].
  induction l as [|x l IH]; simpl.
  - constructor.
  - now apply insertSorted_Sorted.
Qed.

End Sorting.

(* ===================================================================== *)
(** * The grouping loop *)
(* ===================================================================== *)

Section GroupingFacts.
Import Summary.

Variable Label : Type.
Variable renderLabel : string -> option Label.

#[local] Abbreviation Group := (Group Label).
#[local] Abbreviation groupStep := (groupStep Label renderLabel).
#[local] Abbreviation forEach := (forEach Label renderLabel).
#[local] Abbreviation groupByDate := (groupByDate Label renderLabel).
#[local] Abbreviation pushToLast := (pushToLast Label).

(** A group is well formed when it is not empty and holds occurrences of
    its own date only. *)
Let wellFormed (g : Group) : Prop :=
  events g <> [] /\ Forall (fun p => _projectedDate p = date g) (events g).

(** The state of the loop after the occurrences [processed]. *)
Let groupInv (grouped : list Group) (currentDate : string)
    (processed : list Projected) : Prop :=
  Sorted (fun a b : string => a <> b) (map date grouped) /\
  List.last (map date grouped) currentDate = currentDate /\
  Forall wellFormed grouped /\
  flatten grouped = processed.

Lemma pushToLast_snoc (grouped : list Group) (g : Group) (e : Projected) :
  pushToLast (grouped ++ [g]) e =
    Some (grouped ++ [mkGroup (date g) (label g) (events g ++ [e])]).
Proof.
  induction grouped as [|h rest IH]; simpl.
  - reflexivity.
  - rewrite IH. destruct (rest ++ [g]) eqn:Hr.
    + now destruct rest.
    + reflexivity.
Qed.

Lemma pushToLast_Some (grouped grouped' : list Group) (e : Projected) :
  pushToLast grouped e = Some grouped' ->
  exists rest g, grouped = rest ++ [g] /\
    grouped' = rest ++ [mkGroup (date g) (label g) (events g ++ [e])].
Proof.
  destruct grouped as [|g rest _] using rev_ind.
  - discriminate.
  - rewrite pushToLast_snoc. intros H. inversion H. now exists rest, g.
Qed.

Lemma groupStep_cases (grouped grouped' : list Group) (cur cur' : string) (e : Projected) :
  groupStep (grouped, cur) e = Some (grouped', cur') ->
  (_projectedDate e = cur /\ cur' = cur /\
   exists rest g, grouped = rest ++ [g] /\
     grouped' = rest ++ [mkGroup (date g) (label g) (events g ++ [e])]) \/
  (_projectedDate e <> cur /\ cur' = _projectedDate e /\
   exists lbl, renderLabel (_projectedDate e) = Some lbl /\
     grouped' = grouped ++ [mkGroup (_projectedDate e) lbl [e]]).
Proof.
  unfold Summary.groupStep, JS.strictEq.
  destruct (String.eqb_spec (_projectedDate e) cur) as [Heq | Hne]; simpl.
  - destruct (pushToLast grouped e) as [gs|] eqn:Hp; simpl; [|discriminate].
    intros H. inversion H; subst. left.
    destruct (pushToLast_Some _ _ _ Hp) as (rest & g & -> & ->).
    repeat split. now exists rest, g.
  - destruct (renderLabel (_projectedDate e)) as [lbl|] eqn:Hl; simpl; [|discriminate].
    rewrite pushToLast_snoc. simpl. intros H. inversion H; subst. right.
    repeat split; [assumption|]. now exists lbl.
Qed.

Lemma flatten_snoc (grouped : list Group) (g : Group) :
  flatten (grouped ++ [g]) = flatten grouped ++ events g.
Proof.
  unfold flatten. rewrite map_app, concat_app. simpl. now rewrite app_nil_r.
Qed.

Lemma groupStep_preserves (grouped grouped' : list Group) (cur cur' : string)
      (processed : list Projected) (e : Projected) :
  groupInv grouped cur processed ->
  groupStep (grouped, cur) e = Some (grouped', cur') ->
  groupInv grouped' cur' (processed ++ [e]).
Proof.
  intros (Hadj & Hlast & Hwf & Hflat) Hstep.
  destruct (groupStep_cases _ _ _ _ _ Hstep)
    as [(Hd & -> & rest & g & -> & ->) | (Hd & -> & lbl & Hl & ->)].
  - rewrite map_app in Hlast. simpl in Hlast. rewrite last_last in Hlast.
    unfold groupInv. rewrite !map_app in *. simpl in *. rewrite last_last.
    apply Forall_app in Hwf. destruct Hwf as [Hrest Hg].
    inversion Hg as [|? ? [Hne Hall] _]; subst.
    repeat split; try assumption.
    + apply Forall_app. split; [assumption|]. constructor; [|constructor].
      split; simpl.
      * now destruct (events g).
      * apply Forall_app. split; [assumption|]. constructor; [|constructor].
        congruence.
    + rewrite !flatten_snoc. simpl. now rewrite app_assoc.
  - unfold groupInv. rewrite map_app. simpl. rewrite last_last.
    repeat split.
    + apply Sorted_snoc; [assumption|].
      destruct (map date grouped) as [|d ds] eqn:Hm using rev_ind.
      * constructor.
      * constructor. rewrite last_last in Hlast. congruence.
    + apply Forall_app. split; [assumption|]. constructor; [|constructor].
      split; simpl; [discriminate|]. now constructor.
    + rewrite flatten_snoc. simpl. now subst.
Qed.

Lemma forEach_cons (e : Projected) (l : list Projected) (st : list Group * string) :
  forEach (e :: l) st =
    match groupStep st e with Some st' => forEach l st' | None => None end.
Proof. reflexivity. Qed.

Lemma forEach_preserves (l : list Projected) :
  forall grouped cur processed grouped' cur',
  groupInv grouped cur processed ->
  forEach l (grouped, cur) = Some (grouped', cur') ->
  groupInv grouped' cur' (processed ++ l).
Proof.
  induction l as [|e l IH]; intros grouped cur processed grouped' cur' Hinv.
  - simpl. intros H. inversion H; subst. now rewrite app_nil_r.
  - rewrite forEach_cons.
    destruct (groupStep (grouped, cur) e) as [[g1 c1]|] eqn:Hstep; [|discriminate].
    intros H. replace (processed ++ e :: l) with ((processed ++ [e]) ++ l)
      by (now rewrite <- app_assoc).
    eapply IH; [|exact H]. eapply groupStep_preserves; eassumption.
Qed.

(** What the grouping returns: the groups partition the array in order,
    none is empty, each holds occurrences of its own date, and two
    neighbouring groups have different dates. *)
Lemma groupByDate_spec (l : list Projected) (gs : list Group) :
  groupByDate l = Some gs ->
  flatten gs = l /\
  Forall (fun g => events g <> [] /\
                   Forall (fun p => _projectedDate p = date g) (events g)) gs /\
  Sorted (fun a b : string => a <> b) (map date gs).
Proof.
  unfold Summary.groupByDate.
  destruct (forEach l ([], EmptyString)) as [[grouped cur]|] eqn:Hf; simpl; [|discriminate].
  intros H. inversion H; subst.
  assert (Hinv : groupInv [] EmptyString []).
  { unfold groupInv. simpl. repeat split; constructor. }
  destruct (forEach_preserves l _ _ _ _ _ Hinv Hf) as (Hadj & _ & Hwf & Hflat).
  repeat split; assumption.
Qed.

(** The grouping raises only when a label cannot be rendered, or on an
    occurrence with an empty date at the head of the array. *)
Lemma forEach_total (l : list Projected) :
  forall grouped cur,
  (grouped <> [] \/ cur = EmptyString) ->
  Forall (fun p => _projectedDate p <> EmptyString /\
                   is_Some (renderLabel (_projectedDate p))) l ->
  is_Some (forEach l (grouped, cur)).
Proof.
  induction l as [|e l IH]; intros grouped cur Hst Hall.
  - now eexists.
  - rewrite forEach_cons.
    inversion Hall as [|? ? [Hne [lbl Hl]] Hall']; subst.
    assert (Hstep : exists g1 c1, groupStep (grouped, cur) e = Some (g1, c1) /\ g1 <> []).
    { unfold Summary.groupStep, JS.strictEq.
      destruct (String.eqb_spec (_projectedDate e) cur) as [Heq | Hneq]; simpl.
      - destruct Hst as [Hg | ->]; [|congruence].
        destruct (exists_last Hg) as (rest & g & ->).
        rewrite pushToLast_snoc. simpl. eexists _, _. split; [reflexivity|].
        now destruct rest.
      - rewrite Hl. simpl. rewrite pushToLast_snoc. simpl.
        eexists _, _. split; [reflexivity|]. now destruct grouped. }
    destruct Hstep as (g1 & c1 & -> & Hg1). apply IH; auto.
Qed.

End GroupingFacts.

(* ===================================================================== *)
(** * The upcoming aggregator *)
(* ===================================================================== *)

Section Projection.
Import DateFns Recurrence Summary.

(** Paso A projects exactly the single events dated after today, each at
    its own date, without consulting the occurrence predicate. *)
Lemma singleEvents_In (events : list Evento) (today : string) (p : Projected) :
  In p (singleEvents events today) <->
  In (evt p) events /\ recurrenceOf (evt p) = "none"%string /\
  strLt today (fecha (evt p)) /\ _projectedDate p = fecha (evt p).
Proof.
  unfold singleEvents. rewrite in_map_iff. split.
  - intros (e & <- & Hin). apply filter_In in Hin. destruct Hin as [Hin Hf].
    apply andb_true_iff in Hf. destruct Hf as [Hn Hg].
    apply strictEq_true in Hn. apply gt_true in Hg. simpl. auto.
  - intros (Hin & Hn & Hg & Hd). exists (evt p). split.
    + destruct p as [e d]. simpl in *. now subst.
    + apply filter_In. split; [assumption|].
      apply andb_true_iff. split; [now apply strictEq_true | now apply gt_true].
Qed.

Lemma projectDays_cons (recurring : list Evento) (todayDate : option Date)
      (i : nat) (rest : list nat) :
  projectDays recurring todayDate (i :: rest) =
    match projectDay recurring todayDate i with
    | Some here =>
        match projectDays recurring todayDate rest with
        | Some later => Some (here ++ later)
        | None => None
        end
    | None => None
    end.
Proof.
  simpl. destruct (projectDay recurring todayDate i); [|reflexivity].
  simpl. now destruct (projectDays recurring todayDate rest).
Qed.

Lemma projectDay_Some (recurring : list Evento) (now : Date) (i : nat) :
  projectDay recurring (Some now) i =
    Some (map (fun evt => mkProjected evt (format (addDays now (Z.of_nat i))))
              (List.filter (fun evt => shouldShowOnDate evt (format (addDays now (Z.of_nat i))))
                      recurring)).
Proof. reflexivity. Qed.

Lemma projectDay_None (recurring : list Evento) (i : nat) :
  projectDay recurring None i = None.
Proof. reflexivity. Qed.

(** Paso B projects a recurring event on a date of the window only when
    the occurrence predicate accepts it there. *)
Lemma projectDays_In (recurring : list Evento) (todayDate : option Date)
      (offsets : list nat) (ps : list Projected) (p : Projected) :
  projectDays recurring todayDate offsets = Some ps -> In p ps ->
  exists now i, todayDate = Some now /\ In i offsets /\
    _projectedDate p = format (addDays now (Z.of_nat i)) /\
    In (evt p) recurring /\
    shouldShowOnDate (evt p) (_projectedDate p) = true.
Proof.
  revert ps. induction offsets as [|i rest IH]; intros ps.
  - simpl. intros H. inversion H. contradiction.
  - rewrite projectDays_cons. destruct todayDate as [now|].
    + rewrite projectDay_Some.
      destruct (projectDays recurring (Some now) rest) as [later|]; [|discriminate].
      intros H Hin. inversion H; subst. apply in_app_or in Hin.
      destruct Hin as [Hin | Hin].
      * apply in_map_iff in Hin. destruct Hin as (e & <- & He).
        apply filter_In in He. destruct He as [He Hs].
        exists now, i. simpl. repeat split; auto.
      * destruct (IH later eq_refl Hin) as (now' & j & Hn & Hj & Hrest).
        exists now', j. split; [assumption|]. split; [now right | assumption].
    + rewrite projectDay_None. discriminate.
Qed.

Lemma recurringProjections_In (events : list Evento) (today : string) (L : nat)
      (ps : list Projected) (p : Projected) :
  recurringProjections events today L = Some ps -> In p ps ->
  exists now i, parseISO today = Some now /\ (1 <= i <= L)%nat /\
    _projectedDate p = format (addDays now (Z.of_nat i)) /\
    In (evt p) events /\ isRecurring (evt p) = true /\
    shouldShowOnDate (evt p) (_projectedDate p) = true.
Proof.
  unfold recurringProjections.
  destruct (0 <? length (List.filter isRecurring events))%nat.
  - intros H Hin.
    destruct (projectDays_In _ _ _ _ _ H Hin) as (now & i & Hn & Hi & Hd & He & Hs).
    apply in_seq in Hi. apply filter_In in He. destruct He as [He Hr].
    exists now, i. repeat split; auto; lia.
  - intros H. inversion H. contradiction.
Qed.

(** The loop raises only through [format] on an Invalid Date. *)
Lemma projectDays_total (recurring : list Evento) (now : Date) (offsets : list nat) :
  is_Some (projectDays recurring (Some now) offsets).
Proof.
  induction offsets as [|i rest [later IH]].
  - now eexists.
  - rewrite projectDays_cons, projectDay_Some, IH. now eexists.
Qed.

End Projection.

Section Upcoming.
Import DateFns Recurrence Summary.

Variable Label : Type.
Variable renderLabel : string -> option Label.

#[local] Abbreviation upcoming := (upcoming Label renderLabel).

(** The output is the grouping of the sorted array of projections. *)
Lemma upcoming_Some (events : list Evento) (today : string) (L : nat)
      (gs : list (Group Label)) :
  upcoming events today L = Some gs ->
  exists projected,
    recurringProjections events today L = Some projected /\
    groupByDate Label renderLabel
      (sort compareProjected (singleEvents events today ++ projected)) = Some gs.
Proof.
  unfold Summary.upcoming.
  destruct (recurringProjections events today L) as [projected|]; [|discriminate].
  intros H. now exists projected.
Qed.

(** Where an occurrence of the output comes from. *)
Lemma upcoming_provenance (events : list Evento) (today : string) (L : nat)
      (gs : list (Group Label)) (g : Group Label) (p : Projected) :
  upcoming events today L = Some gs -> In g gs -> In p (Summary.events g) ->
  _projectedDate p = date g /\ In (evt p) events /\
  ((recurrenceOf (evt p) = "none"%string /\ strLt today (fecha (evt p)) /\
    _projectedDate p = fecha (evt p)) \/
   (isRecurring (evt p) = true /\
    shouldShowOnDate (evt p) (_projectedDate p) = true /\
    exists now i, parseISO today = Some now /\ (1 <= i <= L)%nat /\
      _projectedDate p = format (addDays now (Z.of_nat i)))).
Proof.
  intros Hup Hg Hp.
  destruct (upcoming_Some _ _ _ _ Hup) as (projected & Hrec & Hgrp).
  destruct (groupByDate_spec _ _ _ _ Hgrp) as (Hflat & Hwf & _).
  rewrite List.Forall_forall in Hwf. destruct (Hwf g Hg) as [_ Hdates].
  rewrite List.Forall_forall in Hdates. split; [now apply Hdates|].
  assert (Hin : In p (singleEvents events today ++ projected)).
  { apply (sort_In compareProjected). rewrite <- Hflat. unfold flatten.
    apply in_concat. exists (Summary.events g). split; [|assumption].
    now apply in_map. }
  apply in_app_or in Hin. destruct Hin as [Hin | Hin].
  - apply singleEvents_In in Hin. destruct Hin as (He & Hn & Hlt & Hd). auto.
  - destruct (recurringProjections_In _ _ _ _ _ Hrec Hin)
      as (now & i & Hn & Hi & Hd & He & Hr & Hs).
    split; [assumption|]. right. repeat split; try assumption. now exists now, i.
Qed.

(** Every group of the output holds at least one occurrence. *)
Lemma upcoming_group_nonempty (events : list Evento) (today : string) (L : nat)
      (gs : list (Group Label)) (g : Group Label) :
  upcoming events today L = Some gs -> In g gs -> Summary.events g <> [].
Proof.
  intros Hup Hg.
  destruct (upcoming_Some _ _ _ _ Hup) as (projected & _ & Hgrp).
  destruct (groupByDate_spec _ _ _ _ Hgrp) as (_ & Hwf & _).
  rewrite List.Forall_forall in Hwf. now destruct (Hwf g Hg).
Qed.

(** The occurrences of the output, read group after group, ascend on the
    pair (projected date, start time or empty). *)
Lemma upcoming_flatten_sorted (events : list Evento) (today : string) (L : nat)
      (gs : list (Group Label)) :
  upcoming events today L = Some gs -> StronglySorted pairLe (flatten gs).
Proof.
  intros Hup.
  destruct (upcoming_Some _ _ _ _ Hup) as (projected & _ & Hgrp).
  destruct (groupByDate_spec _ _ _ _ Hgrp) as (-> & _ & _).
  apply sort_StronglySorted.
Qed.

End Upcoming.

(* ===================================================================== *)
(** * Date strings order as dates *)
(* ===================================================================== *)

Section DateStrings.
Import DateFns.

Lemma digitChar_compare (x y : Z) :
  0 <= x <= 9 -> 0 <= y <= 9 ->
  Ascii.compare (digitChar x) (digitChar y) = (x ?= y).
Proof.
  intros Hx Hy. unfold Ascii.compare, digitChar.
  rewrite !N_ascii_embedding by lia.
  rewrite Z2N.inj_compare by lia. apply Z.add_compare_mono_l.
Qed.

Lemma digitVal_digitChar (x : Z) : 0 <= x <= 9 -> digitVal (digitChar x) = Some x.
Proof.
  intros Hx. unfold digitVal, digitChar. rewrite N_ascii_embedding by lia.
  rewrite Z2N.id by lia.
  destruct (Z.leb_spec 48 (48 + x)); [|lia].
  destruct (Z.leb_spec (48 + x) 57); [|lia].
  simpl. f_equal. lia.
Qed.

Lemma digitVal_Some (c : ascii) (x : Z) :
  digitVal c = Some x -> c = digitChar x /\ 0 <= x <= 9.
Proof.
  unfold digitVal, digitChar.
  destruct (Z.leb_spec 48 (Z.of_N (N_of_ascii c))); simpl; [|discriminate].
  destruct (Z.leb_spec (Z.of_N (N_of_ascii c)) 57); simpl; [|discriminate].
  intros Heq. inversion Heq; subst. split; [|lia].
  replace (48 + (Z.of_N (N_of_ascii c) - 48)) with (Z.of_N (N_of_ascii c)) by lia.
  now rewrite N2Z.id, ascii_N_embedding.
Qed.

Lemma num2_Some (a b : ascii) (n : Z) :
  num2 a b = Some n ->
  exists x y, a = digitChar x /\ b = digitChar y /\
              0 <= x <= 9 /\ 0 <= y <= 9 /\ n = 10 * x + y.
Proof.
  unfold num2. destruct (digitVal a) as [x|] eqn:Ha; [|discriminate].
  destruct (digitVal b) as [y|] eqn:Hb; [|discriminate].
  intros H. inversion H; subst.
  destruct (digitVal_Some _ _ Ha) as [-> Hx].
  destruct (digitVal_Some _ _ Hb) as [-> Hy].
  now exists x, y.
Qed.

Lemma pad2_digits (x y : Z) :
  0 <= x <= 9 -> 0 <= y <= 9 ->
  pad2 (10 * x + y) = String (digitChar x) (String (digitChar y) EmptyString).
Proof.
  intros Hx Hy. unfold pad2.
  replace ((10 * x + y) / 10) with x by (Z.div_mod_to_equations; lia).
  replace ((10 * x + y) mod 10) with y by (Z.div_mod_to_equations; lia).
  reflexivity.
Qed.

Lemma pad2_compare (a b : Z) :
  0 <= a <= 99 -> 0 <= b <= 99 ->
  String.compare (pad2 a) (pad2 b) = (a ?= b).
Proof.
  intros Ha Hb. unfold pad2. simpl.
  rewrite !digitChar_compare by (Z.div_mod_to_equations; lia).
  destruct (Z.compare_spec (a / 10) (b / 10));
    destruct (Z.compare_spec (a mod 10) (b mod 10));
    symmetry;
    first [ apply Z.compare_eq_iff | apply Z.compare_lt_iff | apply Z.compare_gt_iff ];
    Z.div_mod_to_equations; lia.
Qed.

Lemma compare_app_same_length (s1 s2 t1 t2 : string) :
  String.length s1 = String.length s2 ->
  String.compare (s1 ++ t1) (s2 ++ t2) =
    match String.compare s1 s2 with Eq => String.compare t1 t2 | c => c end.
Proof.
  revert s2. induction s1 as [|c s1 IH]; intros [|c' s2]; simpl; try discriminate.
  - reflexivity.
  - intros H. destruct (Ascii.compare c c'); try reflexivity.
    apply IH. congruence.
Qed.

Lemma pad4_small (n : Z) :
  n <= 9999 -> pad4 n = (pad2 (n / 100) ++ pad2 (n mod 100))%string.
Proof.
  intros H. unfold pad4. destruct (Z.leb_spec n 9999); [reflexivity | lia].
Qed.

Lemma pad4_compare (a b : Z) :
  0 <= a <= 9999 -> 0 <= b <= 9999 ->
  String.compare (pad4 a) (pad4 b) = (a ?= b).
Proof.
  intros Ha Hb. rewrite !pad4_small by lia.
  rewrite compare_app_same_length by reflexivity.
  rewrite !pad2_compare by (Z.div_mod_to_equations; lia).
  destruct (Z.compare_spec (a / 100) (b / 100));
    destruct (Z.compare_spec (a mod 100) (b mod 100));
    symmetry;
    first [ apply Z.compare_eq_iff | apply Z.compare_lt_iff | apply Z.compare_gt_iff ];
    Z.div_mod_to_equations; lia.
Qed.

Lemma daysInMonth_bounds (y m : Z) : 28 <= daysInMonth y m <= 31.
Proof.
  unfold daysInMonth.
  destruct (m =? 2); [destruct (isLeapYearIndex y); lia|].
  destruct ((m =? 4) || (m =? 6) || (m =? 9) || (m =? 11)); lia.
Qed.

Lemma validDate_bounds (d : Date) :
  validDate d = true -> 1 <= month d <= 12 /\ 1 <= day d <= 31.
Proof.
  unfold validDate. pose proof (daysInMonth_bounds (year d) (month d)). lia.
Qed.

(** Between years 1 and 9999 the formatted strings order as the dates. *)
Lemma format_compare (a b : Date) :
  validDate a = true -> validDate b = true ->
  1 <= year a <= 9999 -> 1 <= year b <= 9999 ->
  String.compare (format a) (format b) = (dateOrdinal a ?= dateOrdinal b).
Proof.
  intros Va Vb Ya Yb.
  apply validDate_bounds in Va, Vb. unfold format, eraYear, dateOrdinal.
  destruct (Z.ltb_spec 0 (year a)); [|lia].
  destruct (Z.ltb_spec 0 (year b)); [|lia].
  rewrite compare_app_same_length by (now rewrite !pad4_small by lia).
  rewrite pad4_compare by lia.
  change ("-" ++ pad2 (month a) ++ "-" ++ pad2 (day a))%string
    with (String "-" (pad2 (month a) ++ String "-" (pad2 (day a)))).
  change ("-" ++ pad2 (month b) ++ "-" ++ pad2 (day b))%string
    with (String "-" (pad2 (month b) ++ String "-" (pad2 (day b)))).
  cbn [String.compare]. change (Ascii.compare "-" "-") with Eq. cbv iota.
  rewrite compare_app_same_length by reflexivity.
  cbn [String.compare]. change (Ascii.compare "-" "-") with Eq. cbv iota.
  rewrite !pad2_compare by lia.
  destruct (Z.compare_spec (year a) (year b));
    destruct (Z.compare_spec (month a) (month b));
    destruct (Z.compare_spec (day a) (day b));
    symmetry;
    first [ apply Z.compare_eq_iff | apply Z.compare_lt_iff | apply Z.compare_gt_iff ];
    lia.
Qed.

(** A parsed date prints back to the string it was read from. *)
Lemma format_parseISO (s : string) (d : Date) :
  parseISO s = Some d -> 1 <= year d -> format d = s.
Proof.
  unfold parseISO.
  repeat (destruct s as [|? s]; try discriminate).
  destruct (isHyphen a3) eqn:H1; simpl; [|discriminate].
  destruct (isHyphen a6) eqn:H2; simpl; [|discriminate].
  apply Ascii.eqb_eq in H1, H2. subst.
  destruct (num4 a a0 a1 a2) as [y|] eqn:Hy; [|discriminate].
  destruct (num2 a4 a5) as [m|] eqn:Hm; [|discriminate].
  destruct (num2 a7 a8) as [dd|] eqn:Hd; [|discriminate].
  destruct (validDate _); [|discriminate].
  intros H Hyear. inversion H; subst. simpl in Hyear.
  unfold num4 in Hy.
  destruct (num2 a a0) as [hi|] eqn:Hhi; [|discriminate].
  destruct (num2 a1 a2) as [lo|] eqn:Hlo; [|discriminate].
  inversion Hy; subst.
  destruct (num2_Some _ _ _ Hhi) as (x1 & x2 & -> & -> & ? & ? & ->).
  destruct (num2_Some _ _ _ Hlo) as (x3 & x4 & -> & -> & ? & ? & ->).
  destruct (num2_Some _ _ _ Hm) as (m1 & m2 & -> & -> & ? & ? & ->).
  destruct (num2_Some _ _ _ Hd) as (d1 & d2 & -> & -> & ? & ? & ->).
  unfold format, eraYear. simpl year. simpl month. simpl day.
  destruct (Z.ltb_spec 0 (100 * (10 * x1 + x2) + (10 * x3 + x4))); [|lia].
  rewrite pad4_small by lia.
  replace ((100 * (10 * x1 + x2) + (10 * x3 + x4)) / 100) with (10 * x1 + x2)
    by (Z.div_mod_to_equations; lia).
  replace ((100 * (10 * x1 + x2) + (10 * x3 + x4)) mod 100) with (10 * x3 + x4)
    by (Z.div_mod_to_equations; lia).
  now rewrite !pad2_digits by lia.
Qed.

Lemma parseISO_year (s : string) (d : Date) :
  parseISO s = Some d -> 0 <= year d <= 9999.
Proof.
  unfold parseISO.
  repeat (destruct s as [|? s]; try discriminate).
  destruct (isHyphen _ && isHyphen _); [|discriminate].
  destruct (num4 a a0 a1 a2) as [y|] eqn:Hy; [|discriminate].
  destruct (num2 _ _); [|discriminate].
  destruct (num2 _ _); [|discriminate].
  destruct (validDate _); [|discriminate].
  intros H. inversion H; subst. simpl.
  unfold num4 in Hy.
  destruct (num2 a a0) as [hi|] eqn:Hhi; [|discriminate].
  destruct (num2 a1 a2) as [lo|] eqn:Hlo; [|discriminate].
  inversion Hy; subst.
  destruct (num2_Some _ _ _ Hhi) as (x1 & x2 & _ & _ & ? & ? & ->).
  destruct (num2_Some _ _ _ Hlo) as (x3 & x4 & _ & _ & ? & ? & ->).
  lia.
Qed.

Lemma format_nonempty (d : Date) : format d <> EmptyString.
Proof.
  unfold format. destruct (pad4 (eraYear (year d))); discriminate.
Qed.

(** ** The next day *)

Lemma nextDay_valid (d : Date) : validDate d = true -> validDate (nextDay d) = true.
Proof.
  unfold validDate, nextDay. intros V.
  destruct (Z.ltb_spec (day d) (daysInMonth (year d) (month d))); simpl; [lia|].
  destruct (Z.ltb_spec (month d) 12); simpl.
  - pose proof (daysInMonth_bounds (year d) (month d + 1)). lia.
  - pose proof (daysInMonth_bounds (year d + 1) 1). lia.
Qed.

Lemma nextDay_ordinal (d : Date) :
  validDate d = true -> dateOrdinal d < dateOrdinal (nextDay d).
Proof.
  intros V. pose proof (validDate_bounds d V) as B. unfold dateOrdinal, nextDay.
  destruct (Z.ltb_spec (day d) (daysInMonth (year d) (month d))); simpl; [lia|].
  destruct (Z.ltb_spec (month d) 12); simpl; lia.
Qed.

Lemma nextDay_year (d : Date) : year d <= year (nextDay d).
Proof.
  unfold nextDay.
  destruct (day d <? daysInMonth (year d) (month d)); simpl; [lia|].
  destruct (month d <? 12); simpl; lia.
Qed.

Lemma addDays_of_nat (d : Date) (i : nat) :
  addDays d (Z.of_nat i) = Nat.iter i nextDay d.
Proof.
  unfold addDays. destruct (Z.leb_spec 0 (Z.of_nat i)); [|lia].
  now rewrite Nat2Z.id.
Qed.

Lemma addDays_succ (d : Date) (i : nat) :
  addDays d (Z.of_nat (S i)) = nextDay (addDays d (Z.of_nat i)).
Proof. now rewrite !addDays_of_nat. Qed.

Lemma addDays_valid (d : Date) (i : nat) :
  validDate d = true -> validDate (addDays d (Z.of_nat i)) = true.
Proof.
  intros V. induction i as [|i IH].
  - now rewrite addDays_of_nat.
  - rewrite addDays_succ. now apply nextDay_valid.
Qed.

(** Later offsets give later dates, and never an earlier year. *)
Lemma addDays_ordinal_mono (d : Date) (i j : nat) :
  validDate d = true -> (i <= j)%nat ->
  dateOrdinal (addDays d (Z.of_nat i)) + Z.of_nat (j - i)
    <= dateOrdinal (addDays d (Z.of_nat j)) /\
  year (addDays d (Z.of_nat i)) <= year (addDays d (Z.of_nat j)).
Proof.
  intros V Hij. induction j as [|j IH].
  - replace i with 0%nat by lia. simpl. lia.
  - destruct (Nat.eq_dec i (S j)) as [-> | Hne].
    + replace (S j - S j)%nat with 0%nat by lia. lia.
    + destruct IH as [IHo IHy]; [lia|].
      rewrite (addDays_succ d j).
      pose proof (nextDay_ordinal _ (addDays_valid d j V)).
      pose proof (nextDay_year (addDays d (Z.of_nat j))).
      replace (S j - i)%nat with (S (j - i)) by lia. lia.
Qed.

(** ** Day numbers and calendar steps agree *)

Ltac case_if :=
  match goal with
  | |- context [if Z.leb ?a ?b then _ else _] => destruct (Z.leb_spec a b)
  | |- context [if Z.ltb ?a ?b then _ else _] => destruct (Z.ltb_spec a b)
  end.

Ltac month_length Y K :=
  let Hdim := fresh "Hdim" in
  assert (Hdim : daysInMonth Y K =
                 if K =? 2 then (if isLeapYearIndex Y then 29 else 28)
                 else if (K =? 4) || (K =? 6) || (K =? 9) || (K =? 11) then 30 else 31)
    by reflexivity;
  cbv [Z.eqb Pos.eqb orb] in Hdim; rewrite Hdim in *; clear Hdim.

Ltac by_month m :=
  let Hm := fresh "Hm" in
  assert (Hm : m = 1 \/ m = 2 \/ m = 3 \/ m = 4 \/ m = 5 \/ m = 6 \/ m = 7 \/ m = 8 \/
               m = 9 \/ m = 10 \/ m = 11 \/ m = 12) by lia;
  destruct Hm as [-> | [-> | [-> | [-> | [-> | [-> | [-> | [-> | [-> | [-> | [-> | ->]]]]]]]]]]].

(** The day after a date has the next day number. *)
Lemma dayNumber_nextDay (d : Date) :
  validDate d = true -> dayNumber (nextDay d) = dayNumber d + 1.
Proof.
  destruct d as [y m dd]. unfold validDate, nextDay.
  cbn [year month day]. intros V. by_month m.
  all: match goal with V : context [daysInMonth ?Y ?K] |- _ => month_length Y K end.
  all: try (destruct (isLeapYearIndex y) eqn:HL; unfold isLeapYearIndex in HL).
  all: repeat (case_if; try lia); unfold dayNumber; cbn [year month day];
       repeat (case_if; try lia).
  all: Z.div_mod_to_equations; lia.
Qed.

(** The day before a date is a date, with the previous day number. *)
Lemma prevDay_valid (d : Date) : validDate d = true -> validDate (prevDay d) = true.
Proof.
  unfold validDate, prevDay. intros V.
  destruct (Z.ltb_spec 1 (day d)); simpl; [lia|].
  destruct (Z.ltb_spec 1 (month d)); simpl.
  - pose proof (daysInMonth_bounds (year d) (month d - 1)). lia.
  - pose proof (daysInMonth_bounds (year d - 1) 12).
    assert (daysInMonth (year d - 1) 12 = 31) by reflexivity. lia.
Qed.

Lemma dayNumber_prevDay (d : Date) :
  validDate d = true -> dayNumber (prevDay d) = dayNumber d - 1.
Proof.
  destruct d as [y m dd]. unfold validDate, prevDay.
  cbn [year month day]. intros V. by_month m.
  all: match goal with V : context [daysInMonth ?Y ?K] |- _ => month_length Y K end.
  all: repeat (case_if; try lia).
  all: repeat match goal with
              | |- context [Z.pos ?p - 1] =>
                  let v := eval vm_compute in (Z.pos p - 1) in
                  change (Z.pos p - 1) with v
              end.
  all: try match goal with |- context [daysInMonth ?Y ?K] => month_length Y K end.
  all: try (destruct (isLeapYearIndex y) eqn:HL; unfold isLeapYearIndex in HL).
  all: unfold dayNumber; cbn [year month day]; repeat (case_if; try lia).
  all: Z.div_mod_to_equations; lia.
Qed.

(** Adding days to a date adds them to its day number: the dates of a
    window are consecutive days. *)
Lemma dayNumber_addDays (d : Date) (n : Z) :
  validDate d = true -> dayNumber (addDays d n) = dayNumber d + n.
Proof.
  intros V. unfold addDays. destruct (Z.leb_spec 0 n).
  - rewrite <- (Z2Nat.id n) at 2 by lia. generalize (Z.to_nat n). intros i.
    assert (Hi : validDate (Nat.iter i nextDay d) = true /\
                 dayNumber (Nat.iter i nextDay d) = dayNumber d + Z.of_nat i).
    { induction i as [|i [IHv IHn]]; [simpl; split; [assumption | lia]|].
      rewrite Nat.iter_succ. split; [now apply nextDay_valid|].
      rewrite dayNumber_nextDay by assumption. lia. }
    now destruct Hi.
  - replace n with (- Z.of_nat (Z.to_nat (- n))) at 2 by lia.
    generalize (Z.to_nat (- n)). intros i.
    assert (Hi : validDate (Nat.iter i prevDay d) = true /\
                 dayNumber (Nat.iter i prevDay d) = dayNumber d - Z.of_nat i).
    { induction i as [|i [IHv IHn]]; [simpl; split; [assumption | lia]|].
      rewrite Nat.iter_succ. split; [now apply prevDay_valid|].
      rewrite dayNumber_prevDay by assumption. lia. }
    destruct Hi as [_ ->]. lia.
Qed.

(** ** The stored form *)

(** A date between the years 1 and 9999 is read back from its print. *)
Lemma parseISO_format (d : Date) :
  validDate d = true -> 1 <= year d <= 9999 -> parseISO (format d) = Some d.
Proof.
  intros V Hy. pose proof (validDate_bounds d V) as [Hm Hd].
  assert (Hf : format d =
    String (digitChar (year d / 100 / 10)) (String (digitChar ((year d / 100) mod 10))
    (String (digitChar (year d mod 100 / 10)) (String (digitChar ((year d mod 100) mod 10))
    (String "-" (String (digitChar (month d / 10)) (String (digitChar (month d mod 10))
    (String "-" (String (digitChar (day d / 10)) (String (digitChar (day d mod 10))
    EmptyString)))))))))).
  { unfold format, eraYear. destruct (Z.ltb_spec 0 (year d)); [|lia].
    rewrite pad4_small by lia. reflexivity. }
  rewrite Hf. unfold parseISO. change (isHyphen "-") with true. cbv beta iota.
  unfold num4, num2.
  rewrite !digitVal_digitChar by (Z.div_mod_to_equations; lia).
  cbv beta iota.
  replace (100 * (10 * (year d / 100 / 10) + (year d / 100) mod 10) +
           (10 * (year d mod 100 / 10) + (year d mod 100) mod 10)) with (year d)
    by (Z.div_mod_to_equations; lia).
  replace (10 * (month d / 10) + month d mod 10) with (month d)
    by (Z.div_mod_to_equations; lia).
  replace (10 * (day d / 10) + day d mod 10) with (day d)
    by (Z.div_mod_to_equations; lia).
  destruct d as [y m dd]. simpl year. simpl month. simpl day.
  now rewrite V.
Qed.

(** An HH:MM string is two pairs of digits around a colon. *)
Lemma clock_Some (s : string) (x : Z) :
  clock s = Some x ->
  exists h m, s = (pad2 h ++ String ":" (pad2 m))%string /\
              0 <= h <= 23 /\ 0 <= m <= 59 /\ x = 60 * h + m.
Proof.
  unfold clock.
  repeat (destruct s as [|? s]; try discriminate).
  destruct (Ascii.eqb a1 ":") eqn:Hc; [|discriminate].
  apply Ascii.eqb_eq in Hc. subst.
  destruct (num2 a a0) as [h|] eqn:Hh; [|discriminate].
  destruct (num2 a2 a3) as [m|] eqn:Hm; [|discriminate].
  destruct (Z.leb_spec h 23) as [Hh23|]; [|discriminate].
  destruct (Z.leb_spec m 59) as [Hm59|]; [|discriminate].
  intros Hx. inversion Hx; subst.
  destruct (num2_Some _ _ _ Hh) as (x1 & x2 & -> & -> & ? & ? & ->).
  destruct (num2_Some _ _ _ Hm) as (y1 & y2 & -> & -> & ? & ? & ->).
  exists (10 * x1 + x2), (10 * y1 + y2). rewrite !pad2_digits by lia.
  repeat split; try lia.
Qed.

(** HH:MM strings order as the times they name. *)
Lemma clock_compare (a b : string) (x y : Z) :
  clock a = Some x -> clock b = Some y -> String.compare a b = (x ?= y).
Proof.
  intros Ha Hb.
  destruct (clock_Some _ _ Ha) as (h1 & m1 & -> & ? & ? & ->).
  destruct (clock_Some _ _ Hb) as (h2 & m2 & -> & ? & ? & ->).
  rewrite compare_app_same_length by reflexivity.
  rewrite pad2_compare by lia.
  cbn [String.compare]. change (Ascii.compare ":" ":") with Eq. cbv iota.
  rewrite pad2_compare by lia.
  destruct (Z.compare_spec h1 h2); destruct (Z.compare_spec m1 m2); symmetry;
    first [ apply Z.compare_eq_iff | apply Z.compare_lt_iff | apply Z.compare_gt_iff ];
    lia.
Qed.

(** On events in the stored form the order of the start-time strings is
    the order of the start times, an event without one coming first. *)
Lemma startMinutes_strLe (a b : Evento) :
  storedTime a = true -> storedTime b = true ->
  (strLe (JS.nullish (hora_inicio a) EmptyString) (JS.nullish (hora_inicio b) EmptyString) <->
   startMinutes a <= startMinutes b).
Proof.
  unfold storedTime, startMinutes, isTimeString, JS.nullish.
  destruct (hora_inicio a) as [s|], (hora_inicio b) as [t|].
  - destruct (clock s) as [x|] eqn:Hs; [|discriminate].
    destruct (clock t) as [y|] eqn:Ht; [|discriminate].
    intros _ _. unfold strLe. rewrite (clock_compare _ _ _ _ Hs Ht). reflexivity.
  - destruct (clock s) as [x|] eqn:Hs; [|discriminate]. intros _ _.
    destruct (clock_Some _ _ Hs) as (h & m & Heq & ? & ? & ->). split.
    + intros Hle. apply strLe_empty_inv in Hle. subst s. discriminate.
    + lia.
  - destruct (clock t) as [y|] eqn:Ht; [|discriminate]. intros _ _.
    destruct (clock_Some _ _ Ht) as (h & m & Heq & ? & ? & ->). split.
    + lia.
    + intros _. apply strLe_empty.
  - intros _ _. split; [lia | intros _; apply strLe_refl].
Qed.

End DateStrings.

(* ===================================================================== *)
(** * Order and shape of the upcoming list *)
(* ===================================================================== *)

Section UpcomingOrder.
Import DateFns Recurrence Summary.

Variable Label : Type.
Variable renderLabel : string -> option Label.

#[local] Abbreviation upcoming := (upcoming Label renderLabel).

#[local] Instance strLt_transitive : Transitive strLt.
Proof. exact string_compare_lt_trans. Qed.

Lemma flatten_cons (g : Group Label) (gs : list (Group Label)) :
  flatten (g :: gs) = Summary.events g ++ flatten gs.
Proof. reflexivity. Qed.

(** In a sorted array cut into non-empty groups of one date each, with
    neighbouring groups of different dates, the group dates increase. *)
Lemma group_dates_increasing (gs : list (Group Label)) :
  StronglySorted pairLe (flatten gs) ->
  Forall (fun g => Summary.events g <> [] /\
                   Forall (fun p => _projectedDate p = date g) (Summary.events g)) gs ->
  Sorted (fun a b : string => a <> b) (map date gs) ->
  StronglySorted strLt (map date gs).
Proof.
  intros Hs Hwf Hadj. apply Sorted_StronglySorted; [exact strLt_transitive|].
  induction gs as [|g1 gs IH]; simpl.
  - constructor.
  - rewrite flatten_cons in Hs.
    inversion Hwf as [|? ? [Hne1 Hd1] Hwf']; subst.
    simpl in Hadj. inversion Hadj as [|? ? Hadj' Hhd]; subst.
    constructor.
    + apply IH; try assumption. eapply StronglySorted_app_1_r. exact Hs.
    + destruct gs as [|g2 rest]; simpl; constructor.
      inversion Hwf' as [|? ? [Hne2 Hd2] _]; subst.
      destruct (Summary.events g1) as [|p1 l1] eqn:E1; [congruence|].
      destruct (Summary.events g2) as [|p2 l2] eqn:E2; [congruence|].
      assert (Hle : pairLe p1 p2).
      { eapply StronglySorted_app_1_elem_of; [exact Hs | |].
        - apply list_elem_of_In. now left.
        - apply list_elem_of_In. rewrite flatten_cons, E2. now left. }
      apply pairLe_date in Hle.
      inversion Hd1; subst. inversion Hd2; subst.
      simpl in Hhd. inversion Hhd; subst.
      apply strLe_cases in Hle. destruct Hle as [Hlt | Heq]; congruence.
Qed.

Lemma upcoming_dates_increasing (events : list Evento) (today : string) (L : nat)
      (gs : list (Group Label)) :
  upcoming events today L = Some gs -> StronglySorted strLt (map date gs).
Proof.
  intros Hup. pose proof (upcoming_flatten_sorted _ _ _ _ _ _ Hup) as Hs.
  destruct (upcoming_Some _ _ _ _ _ _ Hup) as (projected & _ & Hgrp).
  destruct (groupByDate_spec _ _ _ _ Hgrp) as (_ & Hwf & Hadj).
  now apply group_dates_increasing.
Qed.

Lemma StronglySorted_weaken {A} (R R' : A -> A -> Prop) (l : list A) :
  (forall a b, In a l -> In b l -> R a b -> R' a b) ->
  StronglySorted R l -> StronglySorted R' l.
Proof.
  induction l as [|x l IH]; intros Himp Hs.
  - constructor.
  - inversion Hs as [|? ? Hs' Hall]; subst. constructor.
    + apply IH; [|assumption]. intros a b Ha Hb. apply Himp; now right.
    + rewrite List.Forall_forall in *. intros y Hy.
      apply Himp; [now left | now right | now apply Hall].
Qed.

Lemma StronglySorted_irrefl_NoDup {A} (R : A -> A -> Prop) (l : list A) :
  (forall a, ~ R a a) -> StronglySorted R l -> List.NoDup l.
Proof.
  intros Hirr. induction 1 as [|x l Hs IH Hall].
  - constructor.
  - constructor; [|assumption]. intros Hin.
    rewrite List.Forall_forall in Hall. exact (Hirr x (Hall x Hin)).
Qed.

Lemma group_events_sorted (gs : list (Group Label)) (g : Group Label) :
  StronglySorted pairLe (flatten gs) -> In g gs ->
  StronglySorted pairLe (Summary.events g).
Proof.
  induction gs as [|g1 gs IH]; intros Hs Hin; [contradiction|].
  rewrite flatten_cons in Hs. destruct Hin as [-> | Hin].
  - eapply StronglySorted_app_1_l. exact Hs.
  - apply IH; [|assumption]. eapply StronglySorted_app_1_r. exact Hs.
Qed.

Lemma flatten_In (gs : list (Group Label)) (p : Projected) :
  In p (flatten gs) <-> exists g, In g gs /\ In p (Summary.events g).
Proof.
  unfold flatten. rewrite in_concat. split.
  - intros (l & Hl & Hp). apply in_map_iff in Hl. destruct Hl as (g & <- & Hg).
    now exists g.
  - intros (g & Hg & Hp). exists (Summary.events g). split; [now apply in_map | assumption].
Qed.

(** C9. On a collection in the stored form (dates YYYY-MM-DD, start
    times HH:MM or null), with today a date and the window inside the
    years 1 to 9999, the occurrences of the output ascend on the pair
    (projected date, start time or empty string): the group dates do not
    decrease along the list, and inside each group the start times
    ascend, the occurrences without a start time coming before the timed
    ones.  Every string the comparator is given is then a date or an
    HH:MM time, and the order of the start-time strings is the order of
    the times on the clock. *)
Theorem upcoming_sorted (events : list Evento) (today : string) (L : nat)
        (now : Date) (gs : list (Group Label)) :
  upcoming events today L = Some gs ->
  forallb storedForm events = true ->
  parseISO today = Some now ->
  1 <= year now -> year (addDays now (Z.of_nat L)) <= 9999 ->
  StronglySorted pairLe (flatten gs) /\
  StronglySorted strLe (map date gs) /\
  (forall g, In g gs -> StronglySorted timeLe (Summary.events g)) /\
  (forall p, In p (flatten gs) ->
     isDateString (_projectedDate p) = true /\ storedTime (evt p) = true) /\
  (forall g, In g gs ->
     StronglySorted (fun a b => startMinutes (evt a) <= startMinutes (evt b))
                    (Summary.events g)).
Proof.
  intros Hup Hst Hnow Hy1 Hy2.
  pose proof (upcoming_flatten_sorted _ _ _ _ _ _ Hup) as Hs.
  assert (Htimes : forall g, In g gs -> StronglySorted timeLe (Summary.events g)).
  { intros g Hg.
    destruct (upcoming_Some _ _ _ _ _ _ Hup) as (projected & _ & Hgrp).
    destruct (groupByDate_spec _ _ _ _ Hgrp) as (_ & Hwf & _).
    rewrite List.Forall_forall in Hwf. destruct (Hwf g Hg) as [_ Hd].
    rewrite List.Forall_forall in Hd.
    eapply StronglySorted_weaken; [|exact (group_events_sorted gs g Hs Hg)].
    intros a b Ha Hb [Hlt | [_ Hle]].
    + exfalso. rewrite (Hd a Ha), (Hd b Hb) in Hlt. exact (strLt_irrefl _ Hlt).
    + split; [exact Hle|]. intros Hnone. apply strLe_empty_inv.
      unfold startTimeOrEmpty at 2 in Hle. now rewrite Hnone in Hle. }
  assert (Hform : forall p, In p (flatten gs) ->
            isDateString (_projectedDate p) = true /\ storedTime (evt p) = true).
  { intros p Hp. apply flatten_In in Hp. destruct Hp as (g & Hg & Hp).
    destruct (upcoming_provenance _ _ _ _ _ _ g p Hup Hg Hp) as (_ & He & Hfrom).
    rewrite List.forallb_forall in Hst. specialize (Hst _ He).
    unfold storedForm in Hst. apply andb_true_iff in Hst. destruct Hst as [Hdate Htime].
    split; [|exact Htime].
    destruct Hfrom as [(_ & _ & ->) | (_ & _ & now' & i & Hn' & Hi & ->)]; [exact Hdate|].
    rewrite Hnow in Hn'. inversion Hn'; subst now'.
    pose proof (parseISO_valid _ _ Hnow) as V.
    destruct (addDays_ordinal_mono now 0 i V ltac:(lia)) as [_ Hyr0].
    destruct (addDays_ordinal_mono now i L V ltac:(lia)) as [_ Hyr1].
    rewrite addDays_of_nat in Hyr0. simpl in Hyr0.
    unfold isDateString.
    rewrite parseISO_format; [reflexivity | now apply addDays_valid | lia]. }
  split; [exact Hs|]. split; [|split; [exact Htimes|split; [exact Hform|]]].
  - eapply StronglySorted_weaken; [|exact (upcoming_dates_increasing _ _ _ _ Hup)].
    intros a b _ _ Hlt. apply strLe_cases. now left.
  - intros g Hg. eapply StronglySorted_weaken; [|exact (Htimes g Hg)].
    intros a b Ha Hb [Hle _].
    apply startMinutes_strLe; [| |exact Hle].
    + apply Hform. apply flatten_In. now exists g.
    + apply Hform. apply flatten_In. now exists g.
Qed.

(** C10. No group of the output is empty, and the group dates strictly
    increase along the list, so that no date has two groups. *)
Theorem upcoming_groups_distinct (events : list Evento) (today : string) (L : nat)
        (gs : list (Group Label)) :
  upcoming events today L = Some gs ->
  (forall g, In g gs -> Summary.events g <> []) /\
  StronglySorted strLt (map date gs) /\
  List.NoDup (map date gs).
Proof.
  intros Hup. split; [|split].
  - intros g Hg. exact (upcoming_group_nonempty _ _ _ _ _ _ g Hup Hg).
  - exact (upcoming_dates_increasing _ _ _ _ Hup).
  - eapply StronglySorted_irrefl_NoDup; [exact strLt_irrefl|].
    exact (upcoming_dates_increasing _ _ _ _ Hup).
Qed.

(** The aggregator returns whenever today is a date and every label can
    be rendered. *)
Lemma upcoming_total (events : list Evento) (today : string) (L : nat) (now : Date) :
  parseISO today = Some now ->
  (forall d, is_Some (renderLabel d)) ->
  is_Some (upcoming events today L).
Proof.
  intros Hnow Hlbl. unfold Summary.upcoming.
  assert (Hrec : exists projected,
             recurringProjections events today L = Some projected).
  { unfold recurringProjections, newDateAtMidnight. rewrite Hnow.
    destruct (0 <? length (List.filter isRecurring events))%nat; [|now eexists].
    destruct (projectDays_total (List.filter isRecurring events) now (seq 1 L)) as [ps Hps].
    now exists ps. }
  destruct Hrec as [projected Hrec]. rewrite Hrec. simpl.
  unfold Summary.groupByDate.
  destruct (forEach_total Label renderLabel
              (sort compareProjected (singleEvents events today ++ projected))
              [] EmptyString) as [[grouped cur] Hf].
  - now right.
  - apply List.Forall_forall. intros p Hp. split; [|apply Hlbl].
    apply sort_In in Hp. apply in_app_or in Hp. destruct Hp as [Hp | Hp].
    + apply singleEvents_In in Hp. destruct Hp as (_ & _ & Hlt & ->).
      intros Hempty. rewrite Hempty in Hlt. unfold strLt in Hlt.
      destruct today; discriminate.
    + destruct (recurringProjections_In _ _ _ _ _ Hrec Hp) as (n & i & _ & _ & -> & _).
      apply format_nonempty.
  - rewrite Hf. now eexists.
Qed.

(** Paso B honours the exception dates: a recurring event is in no group
    dated on one of its exception dates. *)
Lemma upcoming_recurring_not_excepted (events : list Evento) (today : string) (L : nat)
      (gs : list (Group Label)) (g : Group Label) (p : Projected) :
  upcoming events today L = Some gs -> In g gs -> In p (Summary.events g) ->
  isRecurring (evt p) = true -> ~ excepted (evt p) (date g).
Proof.
  intros Hup Hg Hp Hr.
  destruct (upcoming_provenance _ _ _ _ _ _ g p Hup Hg Hp)
    as (Hd & _ & [(Hn & _) | (_ & Hs & _)]).
  - unfold isRecurring in Hr. rewrite Hn in Hr. discriminate.
  - rewrite <- Hd. now destruct (shouldShowOnDate_true_guards _ _ Hs) as (_ & _ & Hx).
Qed.

(** Paso A lists every single event dated after today, under its own
    date, whatever its exception dates. *)
Lemma upcoming_lists_future_single (events : list Evento) (today : string) (L : nat)
      (gs : list (Group Label)) (e : Evento) :
  upcoming events today L = Some gs ->
  In e events -> isRecurring e = false -> strLt today (fecha e) ->
  exists g p, In g gs /\ date g = fecha e /\ In p (Summary.events g) /\ evt p = e.
Proof.
  intros Hup He Hr Hlt.
  destruct (upcoming_Some _ _ _ _ _ _ Hup) as (projected & _ & Hgrp).
  destruct (groupByDate_spec _ _ _ _ Hgrp) as (Hflat & Hwf & _).
  assert (Hin : In (mkProjected e (fecha e)) (flatten gs)).
  { rewrite Hflat. apply sort_In. apply in_or_app. left.
    apply singleEvents_In. simpl. repeat split; try assumption.
    unfold isRecurring in Hr. apply negb_false_iff in Hr. now apply strictEq_true. }
  apply flatten_In in Hin. destruct Hin as (g & Hg & Hp).
  rewrite List.Forall_forall in Hwf. destruct (Hwf g Hg) as [_ Hd].
  rewrite List.Forall_forall in Hd. specialize (Hd _ Hp). simpl in Hd.
  exists g, (mkProjected e (fecha e)). repeat split; auto.
Qed.

(** C4, amended. With today a date and the window inside the years 1 to
    9999, every group date is after today; a group that holds an
    occurrence of a recurring event is dated today + i for some
    1 <= i <= lookaheadDays, hence not after today + lookaheadDays; a
    group that holds a single event is dated on that event's own date,
    which the lookahead does not bound. *)
Theorem upcoming_window (events : list Evento) (today : string) (L : nat)
        (now : Date) (gs : list (Group Label)) :
  upcoming events today L = Some gs ->
  parseISO today = Some now ->
  1 <= year now -> year (addDays now (Z.of_nat L)) <= 9999 ->
  (forall g, In g gs -> strLt today (date g)) /\
  (forall g p, In g gs -> In p (Summary.events g) -> isRecurring (evt p) = true ->
     strLe (date g) (format (addDays now (Z.of_nat L))) /\
     exists i, (1 <= i <= L)%nat /\ date g = format (addDays now (Z.of_nat i))) /\
  (forall g p, In g gs -> In p (Summary.events g) -> isRecurring (evt p) = false ->
     date g = fecha (evt p)).
Proof.
  intros Hup Hnow Hy1 Hy2.
  pose proof (parseISO_valid _ _ Hnow) as V.
  pose proof (format_parseISO _ _ Hnow Hy1) as Hfmt.
  assert (Hwin : forall i, (1 <= i <= L)%nat ->
            strLt today (format (addDays now (Z.of_nat i))) /\
            strLe (format (addDays now (Z.of_nat i))) (format (addDays now (Z.of_nat L)))).
  { intros i Hi.
    destruct (addDays_ordinal_mono now 0 i V ltac:(lia)) as [Ho0 Hyr0].
    destruct (addDays_ordinal_mono now i L V ltac:(lia)) as [Ho1 Hyr1].
    rewrite addDays_of_nat in Ho0, Hyr0. simpl in Ho0, Hyr0.
    pose proof (addDays_valid now i V) as Vi.
    pose proof (addDays_valid now L V) as VL.
    pose proof (parseISO_year _ _ Hnow) as Hy0.
    split.
    - rewrite <- Hfmt. unfold strLt. rewrite format_compare by (auto; lia).
      apply Z.compare_lt_iff. lia.
    - unfold strLe. rewrite format_compare by (auto; lia).
      intros Hgt. apply Z.compare_gt_iff in Hgt. lia. }
  assert (Hrecur : forall g p, In g gs -> In p (Summary.events g) ->
            isRecurring (evt p) = true ->
            exists i, (1 <= i <= L)%nat /\ date g = format (addDays now (Z.of_nat i))).
  { intros g p Hg Hp Hr.
    destruct (upcoming_provenance _ _ _ _ _ _ g p Hup Hg Hp)
      as (Hd & _ & [(Hn & _) | (_ & _ & now' & i & Hn' & Hi & Hdi)]).
    - unfold isRecurring in Hr. rewrite Hn in Hr. discriminate.
    - rewrite Hnow in Hn'. inversion Hn'; subst now'. exists i. split; [assumption|].
      congruence. }
  split; [|split].
  - intros g Hg. destruct (Summary.events g) as [|p ps] eqn:E.
    + exfalso. exact (upcoming_group_nonempty _ _ _ _ _ _ g Hup Hg E).
    + assert (Hp : In p (Summary.events g)) by (rewrite E; now left).
      destruct (upcoming_provenance _ _ _ _ _ _ g p Hup Hg Hp)
        as (Hd & _ & [(_ & Hlt & Hf) | (Hr & _ & _)]).
      * rewrite <- Hd, Hf. exact Hlt.
      * destruct (Hrecur g p Hg Hp Hr) as (i & Hi & ->). now apply Hwin.
  - intros g p Hg Hp Hr. destruct (Hrecur g p Hg Hp Hr) as (i & Hi & Hdi).
    split; [|now exists i]. rewrite Hdi. now apply Hwin.
  - intros g p Hg Hp Hr.
    destruct (upcoming_provenance _ _ _ _ _ _ g p Hup Hg Hp)
      as (Hd & He & [(_ & _ & Hf) | (Hr' & _)]); congruence.
Qed.

End UpcomingOrder.

(* ===================================================================== *)
(** * The aggregator on concrete collections *)
(* ===================================================================== *)

Section UpcomingRuns.
Import DateFns Recurrence Summary.

Lemma sampleUpcoming_run :
  upcoming string dateAsLabel sampleEvents "2024-01-15" 30 = Some sampleUpcoming.
Proof. vm_compute. reflexivity. Qed.

Lemma upcoming_sorted_witness :
  StronglySorted pairLe (flatten sampleUpcoming) /\
  StronglySorted strLe (map date sampleUpcoming) /\
  (forall g, In g sampleUpcoming -> StronglySorted timeLe (Summary.events g)).
Proof.
  assert (Hy : year (addDays (mkDate 2024 1 15) (Z.of_nat 30)) <= 9999).
  { vm_compute. discriminate. }
  assert (H1 : 1 <= year (mkDate 2024 1 15)).
  { vm_compute. discriminate. }
  destruct (upcoming_sorted string dateAsLabel sampleEvents "2024-01-15" 30
              (mkDate 2024 1 15) sampleUpcoming sampleUpcoming_run eq_refl eq_refl H1 Hy)
    as (Hs & Hd & Ht & _).
  exact (conj Hs (conj Hd Ht)).
Defined.

Lemma upcoming_groups_distinct_witness :
  (forall g, In g sampleUpcoming -> Summary.events g <> []) /\
  StronglySorted strLt (map date sampleUpcoming) /\
  List.NoDup (map date sampleUpcoming).
Proof.
  apply (upcoming_groups_distinct string dateAsLabel sampleEvents "2024-01-15" 30
           sampleUpcoming).
  vm_compute. reflexivity.
Defined.

(** C4, as stated, fails: a single event dated years ahead is listed,
    far beyond today + lookaheadDays. *)
Lemma upcoming_window_counterexample :
  ~ (forall (Label : Type) (renderLabel : string -> option Label)
            (events : list Evento) (today : string) (now : Date) (L : nat)
            (gs : list (Group Label)) (g : Group Label),
        upcoming Label renderLabel events today L = Some gs ->
        parseISO today = Some now -> In g gs ->
        strLt today (date g) /\
        strLe (date g) (format (addDays now (Z.of_nat L)))).
Proof.
  intros H.
  specialize (H string dateAsLabel [farFutureSingle] "2024-01-15"%string
                (mkDate 2024 1 15) 30%nat _
                (mkGroup "2030-01-01"%string "2030-01-01"%string
                         [mkProjected farFutureSingle "2030-01-01"])
                eq_refl eq_refl (or_introl eq_refl)).
  destruct H as [_ H]. apply H. vm_compute. reflexivity.
Qed.

Lemma upcoming_window_witness :
  Forall (fun g => strLt "2024-01-15" (date g)) sampleUpcoming.
Proof.
  apply List.Forall_forall. intros g Hg.
  assert (Hy : year (addDays (mkDate 2024 1 15) (Z.of_nat 30)) <= 9999).
  { vm_compute. discriminate. }
  assert (H1 : 1 <= year (mkDate 2024 1 15)).
  { vm_compute. discriminate. }
  exact (proj1 (upcoming_window string dateAsLabel sampleEvents "2024-01-15" 30
                  (mkDate 2024 1 15) sampleUpcoming
                  sampleUpcoming_run eq_refl H1 Hy) g Hg).
Defined.

(** C5 at its failing input: a single event whose own date is among its
    exception dates is rejected by the occurrence predicate on that date
    and is nevertheless listed under it, because Paso A does not consult
    the predicate. *)
Theorem upcoming_lists_excepted_single :
  excepted exceptedSingle "2024-01-17" /\
  shouldShowOnDate exceptedSingle "2024-01-17" = false /\
  upcomingEvents string dateAsLabel [exceptedSingle] "2024-01-15" =
    Some [mkGroup "2024-01-17"%string "2024-01-17"%string
                  [mkProjected exceptedSingle "2024-01-17"]].
Proof.
  split; [|split].
  - exists ["2024-01-17"%string]. split; [reflexivity | now left].
  - reflexivity.
  - vm_compute. reflexivity.
Qed.

Lemma calendarMarks_iff_some_event_witness :
  exists m, Home.calendarMarks sampleEvents (mkDate 2024 1 1) 90 !! "2024-01-10"%string = Some m
            /\ Home.marked m = true.
Proof.
  assert (Hi : (9 < 90)%nat) by lia.
  pose proof (calendarMarks_iff_some_event sampleEvents (mkDate 2024 1 1) 90 9 Hi) as H.
  cbv zeta in H. destruct H as [[_ H] _]. apply H.
  exists (eventOf "b" "2024-01-10" (Some "09:00"%string) (Some "weekly"%string)
                  (Some ["2024-01-24"%string])).
  split; [right; now left | reflexivity].
Defined.

End UpcomingRuns.

(* ===================================================================== *)
(** * The other branches of the occurrence predicate *)
(* ===================================================================== *)

Section OccurrenceBranches.
Import DateFns Recurrence.

(** When the predicate answers true: past the guards, either the exact
    match or a recurrence match on two dates with the target not before
    the origin. *)
Lemma shouldShowOnDate_true_iff (e : Evento) (t : string) :
  shouldShowOnDate e t = true <->
  fecha e <> EmptyString /\ t <> EmptyString /\ ~ excepted e t /\
  (t = fecha e \/
   (recurrenceOf e <> "none"%string /\
    exists o tg, parseISO (fecha e) = Some o /\ parseISO t = Some tg /\
                 dayNumber o <= dayNumber tg /\
                 matchesPattern (recurrenceOf e) o tg = true)).
Proof.
  split.
  - intros H. destruct (shouldShowOnDate_true_guards e t H) as (Hf & Ht & Hx).
    repeat split; try assumption.
    rewrite (shouldShowOnDate_unfold e t Hf Ht Hx) in H.
    destruct (JS.strictEq (fecha e) t) eqn:Heq.
    { left. apply strictEq_true in Heq. congruence. }
    right. destruct (JS.strictEq (recurrenceOf e) "none") eqn:Hn; [discriminate|].
    apply strictEq_false in Hn. split; [assumption|].
    destruct (parseISO (fecha e)) as [o|]; [|discriminate].
    destruct (parseISO t) as [tg|]; [|discriminate].
    unfold before in H. destruct (Z.ltb_spec (dayNumber tg) (dayNumber o)); [discriminate|].
    exists o, tg. repeat split; auto.
  - intros (Hf & Ht & Hx & [-> | (Hn & o & tg & Ho & Htg & Hle & Hm)]).
    + rewrite (shouldShowOnDate_unfold e (fecha e) Hf Hf Hx).
      unfold JS.strictEq. now rewrite String.eqb_refl.
    + rewrite (shouldShowOnDate_pattern e t o tg Ho Htg Hle Hx Hn), Hm.
      now destruct (JS.strictEq (fecha e) t).
Qed.

(** X1. A daily event occurs on every date on or after its origin that
    is not excepted. *)
Theorem daily_rule (e : Evento) (t : string) (o tg : Date) :
  recurrenceOf e = "daily"%string ->
  parseISO (fecha e) = Some o -> parseISO t = Some tg ->
  dayNumber o <= dayNumber tg -> ~ excepted e t ->
  shouldShowOnDate e t = true.
Proof.
  intros Hr Ho Ht Hle Hx. apply shouldShowOnDate_true_iff.
  repeat split; eauto using parseISO_nonempty.
  right. split; [rewrite Hr; discriminate|].
  exists o, tg. repeat split; auto. now rewrite Hr.
Qed.

Lemma daily_rule_witness :
  shouldShowOnDate dailyEvent "2024-06-15" = true.
Proof.
  assert (Hle : dayNumber (mkDate 2024 1 1) <= dayNumber (mkDate 2024 6 15)).
  { vm_compute. discriminate. }
  apply (daily_rule dailyEvent "2024-06-15" (mkDate 2024 1 1) (mkDate 2024 6 15)
           eq_refl eq_refl eq_refl Hle).
  intros [ds [Heq _]]. discriminate.
Defined.

Lemma getDay_eq_mod7 (o tg : Date) :
  getDay tg = getDay o <-> (dayNumber tg - dayNumber o) mod 7 = 0.
Proof.
  unfold getDay. generalize (dayNumber tg) (dayNumber o). intros a b.
  split; intros H; Z.div_mod_to_equations; lia.
Qed.

(** X2. A weekly event, on a valid target on or after its origin and
    not excepted, occurs exactly when the target is a whole number of
    weeks after the origin. *)
Theorem weekly_rule (e : Evento) (t : string) (o tg : Date) :
  recurrenceOf e = "weekly"%string ->
  parseISO (fecha e) = Some o -> parseISO t = Some tg ->
  dayNumber o <= dayNumber tg -> ~ excepted e t ->
  (shouldShowOnDate e t = true <-> (dayNumber tg - dayNumber o) mod 7 = 0).
Proof.
  intros Hr Ho Ht Hle Hx.
  rewrite (shouldShowOnDate_pattern e t o tg Ho Ht Hle Hx) by (rewrite Hr; discriminate).
  rewrite Hr. unfold matchesPattern. simpl. rewrite <- getDay_eq_mod7.
  destruct (JS.strictEq (fecha e) t) eqn:Heq.
  - apply strictEq_true in Heq. rewrite Heq, Ht in Ho. inversion Ho. now split.
  - apply Z.eqb_eq.
Qed.

Lemma weekly_rule_witness :
  shouldShowOnDate weeklyEvent "2024-01-15" = true.
Proof.
  assert (Hle : dayNumber (mkDate 2024 1 1) <= dayNumber (mkDate 2024 1 15)).
  { vm_compute. discriminate. }
  apply (weekly_rule weeklyEvent "2024-01-15" (mkDate 2024 1 1) (mkDate 2024 1 15)
           eq_refl eq_refl eq_refl Hle).
  - intros [ds [Heq _]]. discriminate.
  - reflexivity.
Defined.

(** X3. A yearly event, on a valid later target that is not excepted,
    occurs exactly on the same day of the same month; one that starts
    on a 29th of February occurs in leap years only. *)
Theorem yearly_rule (e : Evento) (t : string) (o tg : Date) :
  recurrenceOf e = "yearly"%string ->
  parseISO (fecha e) = Some o -> parseISO t = Some tg ->
  dayNumber o <= dayNumber tg -> ~ excepted e t ->
  (shouldShowOnDate e t = true <-> day tg = day o /\ month tg = month o) /\
  (month o = 2 -> day o = 29 -> shouldShowOnDate e t = true ->
   isLeapYearIndex (year tg) = true).
Proof.
  intros Hr Ho Ht Hle Hx.
  assert (Hiff : shouldShowOnDate e t = true <-> day tg = day o /\ month tg = month o).
  { rewrite (shouldShowOnDate_pattern e t o tg Ho Ht Hle Hx) by (rewrite Hr; discriminate).
    rewrite Hr. unfold matchesPattern, getDate, getMonth. simpl.
    destruct (JS.strictEq (fecha e) t) eqn:Heq.
    - apply strictEq_true in Heq. rewrite Heq, Ht in Ho. inversion Ho. now split.
    - rewrite andb_true_iff, !Z.eqb_eq. split; intros [H1 H2]; split; lia. }
  split; [exact Hiff|].
  intros Hm Hd Hs. apply Hiff in Hs. destruct Hs as [Hd' Hm'].
  pose proof (validDate_day_le tg (parseISO_valid t tg Ht)) as Hv.
  rewrite Hm', Hm, Hd', Hd in Hv. unfold daysInMonth in Hv. simpl in Hv.
  destruct (isLeapYearIndex (year tg)); [reflexivity | lia].
Qed.

Lemma yearly_rule_witness :
  isLeapYearIndex (year (mkDate 2028 2 29)) = true.
Proof.
  assert (Hle : dayNumber (mkDate 2024 2 29) <= dayNumber (mkDate 2028 2 29)).
  { vm_compute. discriminate. }
  assert (Hx : ~ excepted yearlyEvent "2028-02-29").
  { intros [ds [Heq _]]. discriminate. }
  exact (proj2 (yearly_rule yearlyEvent
                  "2028-02-29" (mkDate 2024 2 29) (mkDate 2028 2 29)
                  eq_refl eq_refl eq_refl Hle Hx) eq_refl eq_refl eq_refl).
Defined.

(** X4. Whatever the recurrence, an event with a valid origin has no
    occurrence on a date before the origin. *)
Theorem never_before_origin (e : Evento) (t : string) (o tg : Date) :
  parseISO (fecha e) = Some o -> parseISO t = Some tg ->
  dayNumber tg < dayNumber o ->
  shouldShowOnDate e t = false.
Proof.
  intros Ho Htg Hlt.
  destruct (shouldShowOnDate e t) eqn:Hs; [|reflexivity].
  apply shouldShowOnDate_true_iff in Hs.
  destruct Hs as (_ & _ & _ & [Heq | (_ & o' & tg' & Ho' & Htg' & Hle & _)]).
  - rewrite Heq, Ho in Htg. inversion Htg; subst. lia.
  - rewrite Ho in Ho'. rewrite Htg in Htg'. inversion Ho'; inversion Htg'; subst. lia.
Qed.

Lemma never_before_origin_witness :
  shouldShowOnDate dailyEvent "2023-12-31" = false.
Proof.
  apply (never_before_origin dailyEvent "2023-12-31" (mkDate 2024 1 1) (mkDate 2023 12 31)
           eq_refl eq_refl).
  vm_compute. reflexivity.
Defined.

(** X5. A recurrence tag outside the five known kinds gives the event
    its origin date only, like ['none']. *)
Theorem unknown_recurrence_only_origin (e : Evento) (t : string) :
  recurrenceOf e <> "daily"%string -> recurrenceOf e <> "weekly"%string ->
  recurrenceOf e <> "biweekly"%string -> recurrenceOf e <> "monthly"%string ->
  recurrenceOf e <> "yearly"%string ->
  (shouldShowOnDate e t = true <->
   t = fecha e /\ t <> EmptyString /\ ~ excepted e t).
Proof.
  intros H1 H2 H3 H4 H5. rewrite shouldShowOnDate_true_iff. split.
  - intros (Hf & Ht & Hx & [Heq | (_ & o & tg & _ & _ & _ & Hm)]); [now auto|].
    unfold matchesPattern in Hm.
    apply strictEq_false in H1, H2, H3, H4, H5.
    rewrite H1, H2, H3, H4, H5 in Hm. discriminate.
  - intros (-> & Ht & Hx). repeat split; auto.
Qed.

Lemma unknown_recurrence_only_origin_witness :
  shouldShowOnDate hourlyEvent "2024-01-02" = true
  <-> "2024-01-02"%string = fecha hourlyEvent /\ "2024-01-02"%string <> EmptyString /\
      ~ excepted hourlyEvent "2024-01-02".
Proof.
  apply (unknown_recurrence_only_origin hourlyEvent "2024-01-02"); discriminate.
Defined.

(** X6. The exception dates act on their own dates only and only
    suppress: two events with the same origin and recurrence agree on
    every target that both or neither except, and an event with more
    exception dates never has an occurrence the other lacks. *)
Theorem exceptions_only_suppress (e e' : Evento) (t : string) :
  fecha e' = fecha e -> recurrenceOf e' = recurrenceOf e ->
  ((excepted e t <-> excepted e' t) -> shouldShowOnDate e' t = shouldShowOnDate e t) /\
  ((excepted e t -> excepted e' t) ->
   shouldShowOnDate e' t = true -> shouldShowOnDate e t = true).
Proof.
  intros Hf Hr. split.
  - intros Hx. destruct (shouldShowOnDate e t) eqn:Hs.
    + apply shouldShowOnDate_true_iff. apply shouldShowOnDate_true_iff in Hs.
      rewrite Hf, Hr. tauto.
    + destruct (shouldShowOnDate e' t) eqn:Hs'; [|reflexivity].
      apply shouldShowOnDate_true_iff in Hs'. rewrite Hf, Hr in Hs'.
      assert (shouldShowOnDate e t = true) by (apply shouldShowOnDate_true_iff; tauto).
      congruence.
  - intros Hx Hs'. apply shouldShowOnDate_true_iff in Hs'. rewrite Hf, Hr in Hs'.
    apply shouldShowOnDate_true_iff. tauto.
Qed.

Lemma exceptions_only_suppress_witness :
  shouldShowOnDate weeklyWithException "2024-01-17" =
  shouldShowOnDate weeklyWithoutException "2024-01-17".
Proof.
  apply (proj1 (exceptions_only_suppress weeklyWithoutException weeklyWithException
                  "2024-01-17" eq_refl eq_refl)).
  split.
  - intros [ds [Heq _]]. discriminate.
  - intros [ds [Heq Hin]]. inversion Heq; subst. destruct Hin as [Hin | []]. discriminate.
Defined.

(** X7. With the same origin and exception dates, every occurrence of a
    biweekly event is an occurrence of the weekly one, and every
    occurrence of any event is an occurrence of the daily one. *)
Theorem recurrence_hierarchy (eb ew ed x : Evento) (t : string) :
  recurrenceOf eb = "biweekly"%string -> recurrenceOf ew = "weekly"%string ->
  recurrenceOf ed = "daily"%string ->
  fecha ew = fecha eb -> fecha ed = fecha x ->
  (forall d, excepted ew d -> excepted eb d) ->
  (forall d, excepted ed d -> excepted x d) ->
  (shouldShowOnDate eb t = true -> shouldShowOnDate ew t = true) /\
  (recurrenceOf x <> "none"%string ->
   shouldShowOnDate x t = true -> shouldShowOnDate ed t = true).
Proof.
  intros Hb Hw Hd Hfw Hfd Hxw Hxd. split.
  - intros H. apply shouldShowOnDate_true_iff in H. apply shouldShowOnDate_true_iff.
    rewrite Hfw, Hw. destruct H as (Hf & Ht & Hx & Hc). repeat split; auto.
    destruct Hc as [Heq | (_ & o & tg & Ho & Htg & Hle & Hm)]; [now left|].
    right. split; [discriminate|]. exists o, tg. repeat split; auto.
    rewrite Hb in Hm. unfold matchesPattern in Hm |- *. simpl in Hm |- *.
    now destruct (getDay tg =? getDay o).
  - intros Hn H. apply shouldShowOnDate_true_iff in H. apply shouldShowOnDate_true_iff.
    rewrite Hfd, Hd. destruct H as (Hf & Ht & Hx & Hc). repeat split; auto.
    destruct Hc as [Heq | (_ & o & tg & Ho & Htg & Hle & Hm)]; [now left|].
    right. split; [discriminate|]. exists o, tg. repeat split; auto.
Qed.

Lemma recurrence_hierarchy_witness :
  shouldShowOnDate weeklyEvent "2024-01-15" = true.
Proof.
  refine (proj1 (recurrence_hierarchy biweeklyEvent weeklyEvent dailyEvent
                   biweeklyEvent "2024-01-15"
                   eq_refl eq_refl eq_refl eq_refl eq_refl _ _) eq_refl).
  - intros d [ds [Heq _]]. discriminate.
  - intros d [ds [Heq _]]. discriminate.
Defined.

End OccurrenceBranches.

(* ===================================================================== *)
(** * More on the calendar dots *)
(* ===================================================================== *)

Section CalendarDots.
Import DateFns Recurrence Home HomeScreen.

(** X8. The window projector writes nothing outside its window and
    nothing but dots: every entry of the map is the mark of a date of
    the range on which some event occurs. *)
Theorem calendarMarks_only_window (events : list Evento) (rangeStart : Date)
        (rangeLengthDays : nat) (d : string) (m : Mark) :
  calendarMarks events rangeStart rangeLengthDays !! d = Some m ->
  m = mkMark true COLORS_primary /\
  (exists i, (i < rangeLengthDays)%nat /\ d = format (addDays rangeStart (Z.of_nat i))) /\
  (exists e, In e events /\ shouldShowOnDate e d = true).
Proof.
  unfold calendarMarks. rewrite markDay_fold_lookup, lookup_empty.
  destruct (existsb _ (seq 0 rangeLengthDays)) eqn:Hex; simpl; [|discriminate].
  destruct (hasEvent events d) eqn:Hh; [|discriminate].
  intros H. inversion H; subst. split; [reflexivity|]. split.
  - apply existsb_exists in Hex. destruct Hex as (i & Hi & Heq).
    apply in_seq in Hi. apply String.eqb_eq in Heq. exists i. split; [lia | now symmetry].
  - now apply hasEvent_exists.
Qed.

Lemma calendarMarks_only_window_witness :
  exists i, (i < 90)%nat /\
            "2024-01-10"%string = format (addDays (mkDate 2024 1 1) (Z.of_nat i)).
Proof.
  assert (H : calendarMarks sampleEvents (mkDate 2024 1 1) 90 !! "2024-01-10"%string
              = Some (mkMark true COLORS_primary)).
  { vm_compute. reflexivity. }
  exact (proj1 (proj2 (calendarMarks_only_window sampleEvents (mkDate 2024 1 1) 90
                         "2024-01-10" _ H))).
Defined.

(** X9. Adding events to the collection never removes a dot. *)
Theorem calendarMarks_monotone (events events' : list Evento) (rangeStart : Date)
        (rangeLengthDays : nat) (d : string) (m : Mark) :
  (forall e, In e events -> In e events') ->
  calendarMarks events rangeStart rangeLengthDays !! d = Some m ->
  calendarMarks events' rangeStart rangeLengthDays !! d = Some m.
Proof.
  intros Hsub. unfold calendarMarks. rewrite !markDay_fold_lookup, !lookup_empty.
  destruct (existsb _ (seq 0 rangeLengthDays)); simpl; [|discriminate].
  destruct (hasEvent events d) eqn:Hh; [|discriminate].
  intros H. apply hasEvent_exists in Hh. destruct Hh as (e & He & Hs).
  assert (Hh' : hasEvent events' d = true).
  { apply hasEvent_exists. exists e. split; [now apply Hsub | assumption]. }
  now rewrite Hh'.
Qed.

Lemma calendarMarks_monotone_witness :
  calendarMarks sampleEvents (mkDate 2024 1 1) 90 !! "2024-01-10"%string
  = Some (mkMark true COLORS_primary).
Proof.
  apply (calendarMarks_monotone (tl sampleEvents) sampleEvents (mkDate 2024 1 1) 90).
  - intros e He. now right.
  - vm_compute. reflexivity.
Defined.

(** X10. Highlighting the selected day changes no dot: a date carries a
    dot in [markedDates] exactly when it does in [eventMarks]; the
    selected date, when there is one, is always present and selected,
    and every other entry is the copy of its event mark. *)
Theorem markedDates_keeps_dots (eventMarks : gmap string Mark) (selectedDate d : string) :
  ((exists md, markedDates eventMarks selectedDate !! d = Some md /\ md_marked md = true) <->
   (exists m, eventMarks !! d = Some m /\ marked m = true)) /\
  (selectedDate <> EmptyString ->
   exists md, markedDates eventMarks selectedDate !! selectedDate = Some md /\
              md_selected md = Some true /\ md_selectedColor md = Some COLORS_primary) /\
  (d <> selectedDate ->
   markedDates eventMarks selectedDate !! d = ofMark <$> eventMarks !! d).
Proof.
  unfold markedDates. split; [|split].
  - destruct (JS.truthy selectedDate) eqn:Ht.
    + destruct (String.eqb_spec selectedDate d) as [-> | Hne].
      * rewrite lookup_insert_eq, lookup_fmap.
        destruct (eventMarks !! d) as [m|]; simpl; split.
        -- intros (md & Hmd & Hm). inversion Hmd; subst. simpl in Hm. now exists m.
        -- intros (m' & Hm' & Hm). inversion Hm'; subst. eexists. split; [reflexivity|].
           exact Hm.
        -- intros (md & Hmd & Hm). inversion Hmd; subst. discriminate.
        -- intros (m' & Hm' & _). discriminate.
      * rewrite lookup_insert_ne by assumption. rewrite lookup_fmap.
        destruct (eventMarks !! d) as [m|]; simpl; split.
        -- intros (md & Hmd & Hm). inversion Hmd; subst. now exists m.
        -- intros (m' & Hm' & Hm). inversion Hm'; subst. now exists (ofMark m').
        -- intros (md & Hmd & _). discriminate.
        -- intros (m' & Hm' & _). discriminate.
    + rewrite lookup_fmap. destruct (eventMarks !! d) as [m|]; simpl; split.
      * intros (md & Hmd & Hm). inversion Hmd; subst. now exists m.
      * intros (m' & Hm' & Hm). inversion Hm'; subst. now exists (ofMark m').
      * intros (md & Hmd & _). discriminate.
      * intros (m' & Hm' & _). discriminate.
  - intros Hne. apply truthy_true in Hne. rewrite Hne, lookup_insert_eq.
    eexists. split; [reflexivity|]. now split.
  - intros Hne. destruct (JS.truthy selectedDate).
    + rewrite lookup_insert_ne by congruence. apply lookup_fmap.
    + apply lookup_fmap.
Qed.

End CalendarDots.

(* ===================================================================== *)
(** * The day list *)
(* ===================================================================== *)

Section DayListFacts.
Import DateFns Recurrence Home DayList.

(** Insertion keeps any order the comparator decides. *)
Lemma insertSorted_keeps_Sorted {A} (cmp : A -> A -> comparison) (R : A -> A -> Prop)
      (x : A) (l : list A) :
  (forall a b, cmp a b <> Gt -> R a b) ->
  (forall a b, cmp a b = Gt -> R b a) ->
  Sorted R l -> Sorted R (Summary.insertSorted cmp x l).
Proof.
  intros Hle Hgt. induction l as [|y l IH]; intros Hs; simpl.
  - repeat constructor.
  - destruct (cmp x y) eqn:Hc.
    + constructor; [assumption|]. constructor. apply Hle. congruence.
    + constructor; [assumption|]. constructor. apply Hle. congruence.
    + inversion Hs as [|? ? Hs' Hhd]; subst. constructor; [now apply IH|].
      destruct l as [|z l]; simpl.
      * constructor. now apply Hgt.
      * destruct (cmp x z); constructor; try (now apply Hgt); now inversion Hhd.
Qed.

Lemma compareDay_dayLe (a b : Evento) : compareDay a b <> Gt -> dayLe a b.
Proof.
  unfold compareDay, dayLe, JS.localeCompare, strLe.
  destruct (es_todo_el_dia a), (es_todo_el_dia b); simpl; intros H; auto; congruence.
Qed.

Lemma compareDay_gt (a b : Evento) : compareDay a b = Gt -> dayLe b a.
Proof.
  unfold compareDay, dayLe, JS.localeCompare.
  destruct (es_todo_el_dia a), (es_todo_el_dia b); simpl; intros H;
    try discriminate; auto;
    right; (split; [reflexivity|]); apply string_compare_gt_lt in H;
    apply strLe_cases; now left.
Qed.

Lemma dayLe_trans (a b c : Evento) : dayLe a b -> dayLe b c -> dayLe a c.
Proof.
  unfold dayLe. intros [[Ha Hb] | [Hab Tab]] [[Hb' Hc] | [Hbc Tbc]].
  - congruence.
  - left. split; congruence.
  - left. split; congruence.
  - right. split; [congruence | exact (strLe_trans _ _ _ Tab Tbc)].
Qed.

(** X11. The day list shows exactly the events that occur on the date,
    each as often as it is in the collection; in particular never an
    event on one of its exception dates. *)
Theorem todayEvents_exactly (events : list Evento) (today : string) :
  Permutation (todayEvents events today)
              (List.filter (fun e => shouldShowOnDate e today) events) /\
  (forall e, In e (todayEvents events today) <->
             In e events /\ shouldShowOnDate e today = true) /\
  (forall e, In e (todayEvents events today) -> ~ excepted e today).
Proof.
  assert (Hin : forall e, In e (todayEvents events today) <->
                          In e events /\ shouldShowOnDate e today = true).
  { intros e. unfold todayEvents. rewrite sort_In. apply filter_In. }
  split; [apply sort_Permutation|]. split; [exact Hin|].
  intros e He. apply Hin in He. destruct He as [_ Hs].
  now destruct (shouldShowOnDate_true_guards _ _ Hs) as (_ & _ & Hx).
Qed.

(** X12. On a collection whose start times are in the stored form
    (HH:MM or null), the day list has the timed events first and the
    all-day events after them, each class by ascending start time: on
    the start-time strings, and so on the clock. *)
Theorem todayEvents_sorted (events : list Evento) (today : string) :
  forallb storedTime events = true ->
  StronglySorted dayLe (todayEvents events today) /\
  StronglySorted dayOrder (todayEvents events today).
Proof.
  intros Hst.
  assert (Hs : StronglySorted dayLe (todayEvents events today)).
  { unfold todayEvents.
    generalize (List.filter (fun e => shouldShowOnDate e today) events). intros l.
    apply Sorted.Sorted_StronglySorted; [exact dayLe_trans|].
    induction l as [|x l IH]; simpl.
    - constructor.
    - apply insertSorted_keeps_Sorted; auto using compareDay_dayLe, compareDay_gt. }
  split; [exact Hs|].
  assert (Hin : forall e, In e (todayEvents events today) -> storedTime e = true).
  { intros e He. unfold todayEvents in He. apply sort_In in He.
    apply filter_In in He. destruct He as [He _].
    rewrite List.forallb_forall in Hst. now apply Hst. }
  eapply StronglySorted_weaken; [|exact Hs].
  intros a b Ha Hb [Hc | [Hc Hle]]; [now left|].
  right. split; [exact Hc|]. apply startMinutes_strLe; auto.
Qed.

Lemma todayEvents_sorted_witness :
  StronglySorted dayOrder (todayEvents sampleEvents "2024-01-17").
Proof.
  exact (proj2 (todayEvents_sorted sampleEvents "2024-01-17" eq_refl)).
Defined.

(** X13. A date of the calendar window carries a dot exactly when its day
    list is not empty. *)
Theorem dot_iff_day_list (events : list Evento) (rangeStart : Date)
        (rangeLengthDays i : nat) :
  (i < rangeLengthDays)%nat ->
  let d := format (addDays rangeStart (Z.of_nat i)) in
  is_Some (calendarMarks events rangeStart rangeLengthDays !! d) <->
  dayEvents events d <> [].
Proof.
  intros Hi d. unfold calendarMarks. rewrite markDay_fold_lookup, lookup_empty.
  subst d. rewrite (dateAt_in_window rangeStart _ _ Hi). simpl.
  set (d := format (addDays rangeStart (Z.of_nat i))).
  destruct (hasEvent events d) eqn:Hh.
  - split; [|intros _; now eexists].
    intros _ Hnil. apply hasEvent_exists in Hh. destruct Hh as (e & He & Hs).
    assert (Hin : In e (dayEvents events d)).
    { unfold dayEvents, todayEvents. apply sort_In. apply filter_In. now split. }
    rewrite Hnil in Hin. contradiction.
  - split; [intros [m Hm]; discriminate|].
    intros Hne. exfalso. apply Hne.
    destruct (dayEvents events d) as [|e l] eqn:E; [reflexivity|].
    assert (Hin : In e (dayEvents events d)) by (rewrite E; now left).
    unfold dayEvents, todayEvents in Hin. apply sort_In in Hin. apply filter_In in Hin.
    destruct Hin as [He Hs].
    assert (hasEvent events d = true) by (apply hasEvent_exists; now exists e).
    congruence.
Qed.

Lemma dot_iff_day_list_witness :
  is_Some (calendarMarks sampleEvents (mkDate 2024 1 1) 90 !! "2024-01-10"%string) <->
  dayEvents sampleEvents "2024-01-10" <> [].
Proof.
  assert (Hi : (9 < 90)%nat) by lia.
  exact (dot_iff_day_list sampleEvents (mkDate 2024 1 1) 90 9 Hi).
Defined.

End DayListFacts.

(* ===================================================================== *)
(** * More on the upcoming list *)
(* ===================================================================== *)

Section UpcomingMore.
Import DateFns Recurrence Summary.

Variable Label : Type.
Variable renderLabel : string -> option Label.

#[local] Abbreviation upcoming := (upcoming Label renderLabel).

Lemma projectDays_complete (recurring : list Evento) (now : Date) (offsets : list nat)
      (ps : list Projected) (e : Evento) (i : nat) :
  projectDays recurring (Some now) offsets = Some ps ->
  In i offsets -> In e recurring ->
  shouldShowOnDate e (format (addDays now (Z.of_nat i))) = true ->
  In (mkProjected e (format (addDays now (Z.of_nat i)))) ps.
Proof.
  revert ps. induction offsets as [|j rest IH]; intros ps Hps Hi He Hs; [contradiction|].
  rewrite projectDays_cons, projectDay_Some in Hps.
  destruct (projectDays recurring (Some now) rest) as [later|]; [|discriminate].
  inversion Hps; subst. apply in_or_app. destruct Hi as [-> | Hi].
  - left. apply in_map_iff. exists e. split; [reflexivity|]. apply filter_In. now split.
  - right. now apply IH.
Qed.

(** X14. Every occurrence of a recurring event inside the lookahead is
    listed: if the predicate accepts the event on today + i, with
    1 <= i <= lookaheadDays, the group of that date holds it. *)
Theorem upcoming_lists_recurring (events : list Evento) (today : string) (L : nat)
        (now : Date) (gs : list (Group Label)) (e : Evento) (i : nat) :
  upcoming events today L = Some gs -> parseISO today = Some now ->
  In e events -> isRecurring e = true -> (1 <= i <= L)%nat ->
  shouldShowOnDate e (format (addDays now (Z.of_nat i))) = true ->
  exists g p, In g gs /\ date g = format (addDays now (Z.of_nat i)) /\
              In p (Summary.events g) /\ evt p = e.
Proof.
  intros Hup Hnow He Hr Hi Hs.
  destruct (upcoming_Some _ _ _ _ _ _ Hup) as (projected & Hrec & Hgrp).
  destruct (groupByDate_spec _ _ _ _ Hgrp) as (Hflat & Hwf & _).
  set (p := mkProjected e (format (addDays now (Z.of_nat i)))).
  assert (Hin : In p (flatten gs)).
  { rewrite Hflat. apply sort_In. apply in_or_app. right.
    unfold recurringProjections, newDateAtMidnight in Hrec. rewrite Hnow in Hrec.
    assert (Her : In e (List.filter isRecurring events)) by (apply filter_In; now split).
    destruct (0 <? length (List.filter isRecurring events))%nat eqn:Hlen.
    - apply (projectDays_complete _ _ _ _ _ _ Hrec); auto. apply in_seq. lia.
    - apply Nat.ltb_ge in Hlen. destruct (List.filter isRecurring events); [contradiction|].
      simpl in Hlen. lia. }
  apply flatten_In in Hin. destruct Hin as (g & Hg & Hp).
  rewrite List.Forall_forall in Hwf. destruct (Hwf g Hg) as [_ Hd].
  rewrite List.Forall_forall in Hd. specialize (Hd _ Hp).
  exists g, p. repeat split; auto.
Qed.

(** The label of every group is the rendering of its date. *)
Lemma forEach_labels (l : list Projected) :
  forall grouped cur grouped' cur',
  Forall (fun g => renderLabel (date g) = Some (label g)) grouped ->
  forEach Label renderLabel l (grouped, cur) = Some (grouped', cur') ->
  Forall (fun g => renderLabel (date g) = Some (label g)) grouped'.
Proof.
  induction l as [|e l IH]; intros grouped cur grouped' cur' Hall.
  - simpl. intros H. now inversion H; subst.
  - rewrite forEach_cons.
    destruct (groupStep Label renderLabel (grouped, cur) e) as [[g1 c1]|] eqn:Hstep;
      [|discriminate].
    apply IH. destruct (groupStep_cases _ _ _ _ _ _ _ Hstep)
      as [(_ & _ & rest & g & -> & ->) | (_ & _ & lbl & Hl & ->)].
    + apply Forall_app in Hall. destruct Hall as [Hrest Hg].
      apply Forall_app. split; [assumption|].
      inversion Hg; subst. now constructor.
    + apply Forall_app. split; [assumption|]. now constructor.
Qed.

(** X15. Every group of the output carries the label rendered for its
    own date. *)
Theorem upcoming_labels (events : list Evento) (today : string) (L : nat)
        (gs : list (Group Label)) (g : Group Label) :
  upcoming events today L = Some gs -> In g gs ->
  renderLabel (date g) = Some (label g).
Proof.
  intros Hup Hg.
  destruct (upcoming_Some _ _ _ _ _ _ Hup) as (projected & _ & Hgrp).
  unfold groupByDate in Hgrp.
  destruct (forEach Label renderLabel _ ([], EmptyString)) as [[grouped cur]|] eqn:Hf;
    [|discriminate].
  simpl in Hgrp. inversion Hgrp; subst.
  pose proof (forEach_labels _ _ _ _ _ (List.Forall_nil _) Hf) as Hall.
  rewrite List.Forall_forall in Hall. now apply Hall.
Qed.


End UpcomingMore.

Section UpcomingMoreRuns.
Import DateFns Recurrence Summary.

Lemma upcoming_lists_recurring_witness :
  exists g p, In g sampleUpcoming /\ date g = "2024-01-17"%string /\
              In p (Summary.events g) /\ evt p = weeklyWednesday.
Proof.
  assert (Hin : In weeklyWednesday sampleEvents).
  { right. right. right. now left. }
  assert (Hi : (1 <= 2 <= 30)%nat) by lia.
  exact (upcoming_lists_recurring string dateAsLabel sampleEvents "2024-01-15" 30
           (mkDate 2024 1 15) sampleUpcoming weeklyWednesday 2
           sampleUpcoming_run eq_refl Hin eq_refl Hi eq_refl).
Defined.

Lemma upcoming_labels_witness :
  Forall (fun g => dateAsLabel (date g) = Some (label g)) sampleUpcoming.
Proof.
  apply List.Forall_forall. intros g Hg.
  exact (upcoming_labels string dateAsLabel sampleEvents "2024-01-15" 30
           sampleUpcoming g sampleUpcoming_run Hg).
Defined.


End UpcomingMoreRuns.

(* ===================================================================== *)
(** * The week strip *)
(* ===================================================================== *)

Section WeekStrip.
Import DateFns HomeScreen.

Lemma prevDay_nextDay (d : Date) : validDate d = true -> prevDay (nextDay d) = d.
Proof.
  destruct d as [y m dd]. intros V. pose proof (validDate_bounds _ V) as [Hm Hd].
  pose proof (validDate_day_le _ V) as Hdim. cbn [year month day] in *.
  unfold nextDay, prevDay. cbn [year month day].
  destruct (Z.ltb_spec dd (daysInMonth y m)); cbn [year month day].
  - destruct (Z.ltb_spec 1 (dd + 1)); [|lia]. f_equal. lia.
  - destruct (Z.ltb_spec m 12); cbn [year month day].
    + destruct (Z.ltb_spec 1 1); [lia|]. destruct (Z.ltb_spec 1 (m + 1)); [|lia].
      replace (m + 1 - 1) with m by lia. f_equal. lia.
    + destruct (Z.ltb_spec 1 1); [lia|].
      assert (m = 12) by lia. subst m.
      assert (Hdec : daysInMonth y 12 = 31) by reflexivity. rewrite Hdec in *.
      f_equal; lia.
Qed.

Lemma nextDay_prevDay (d : Date) : validDate d = true -> nextDay (prevDay d) = d.
Proof.
  destruct d as [y m dd]. intros V. pose proof (validDate_bounds _ V) as [Hm Hd].
  pose proof (validDate_day_le _ V) as Hdim. cbn [year month day] in *.
  unfold nextDay, prevDay. cbn [year month day].
  destruct (Z.ltb_spec 1 dd); cbn [year month day].
  - destruct (Z.ltb_spec (dd - 1) (daysInMonth y m)); [|lia]. f_equal. lia.
  - destruct (Z.ltb_spec 1 m); cbn [year month day].
    + destruct (Z.ltb_spec (daysInMonth y (m - 1)) (daysInMonth y (m - 1))); [lia|].
      destruct (Z.ltb_spec (m - 1) 12); [|lia]. f_equal; lia.
    + assert (Hdec : daysInMonth (y - 1) 12 = 31) by reflexivity. rewrite Hdec.
      destruct (Z.ltb_spec 31 31); [lia|]. destruct (Z.ltb_spec 12 12); [lia|].
      f_equal; lia.
Qed.

Lemma iter_step_valid (f : Date -> Date) (i : nat) (d : Date) :
  (forall x, validDate x = true -> validDate (f x) = true) ->
  validDate d = true -> validDate (Nat.iter i f d) = true.
Proof.
  intros Hf V. induction i as [|i IH]; [assumption|].
  rewrite Nat.iter_succ. now apply Hf.
Qed.

Lemma addDays_valid_Z (d : Date) (n : Z) :
  validDate d = true -> validDate (addDays d n) = true.
Proof.
  intros V. unfold addDays. destruct (0 <=? n).
  - apply iter_step_valid; auto using nextDay_valid.
  - apply iter_step_valid; auto using prevDay_valid.
Qed.

(** One more day is the next day, at every offset. *)
Lemma addDays_next (d : Date) (n : Z) :
  validDate d = true -> addDays d (n + 1) = nextDay (addDays d n).
Proof.
  intros V. unfold addDays.
  destruct (Z.leb_spec 0 n); destruct (Z.leb_spec 0 (n + 1)); try lia.
  - replace (Z.to_nat (n + 1)) with (S (Z.to_nat n)) by lia. apply Nat.iter_succ.
  - assert (n = -1) by lia. subst n. simpl. symmetry. now apply nextDay_prevDay.
  - replace (Z.to_nat (- n)) with (S (Z.to_nat (- (n + 1)))) by lia.
    rewrite Nat.iter_succ. symmetry. apply nextDay_prevDay.
    apply iter_step_valid; auto using prevDay_valid.
Qed.

Lemma addDays_prev (d : Date) (n : Z) :
  validDate d = true -> addDays d (n - 1) = prevDay (addDays d n).
Proof.
  intros V. replace n with ((n - 1) + 1) at 2 by lia.
  rewrite addDays_next by assumption. symmetry. apply prevDay_nextDay.
  now apply addDays_valid_Z.
Qed.

(** Adding days composes. *)
Lemma addDays_add (d : Date) (a b : Z) :
  validDate d = true -> addDays (addDays d a) b = addDays d (a + b).
Proof.
  intros V. pose proof (addDays_valid_Z d a V) as Va.
  assert (Hpos : forall k : nat, addDays (addDays d a) (Z.of_nat k) = addDays d (a + Z.of_nat k)).
  { induction k as [|k IH].
    - rewrite Z.add_0_r. reflexivity.
    - rewrite Nat2Z.inj_succ. unfold Z.succ.
      rewrite addDays_next by assumption. rewrite IH.
      rewrite Z.add_assoc. symmetry. now apply addDays_next. }
  assert (Hneg : forall k : nat, addDays (addDays d a) (- Z.of_nat k) = addDays d (a - Z.of_nat k)).
  { induction k as [|k IH].
    - rewrite Z.sub_0_r. reflexivity.
    - rewrite Nat2Z.inj_succ. unfold Z.succ.
      replace (- (Z.of_nat k + 1)) with (- Z.of_nat k - 1) by lia.
      rewrite addDays_prev by assumption. rewrite IH.
      replace (a - (Z.of_nat k + 1)) with (a - Z.of_nat k - 1) by lia.
      symmetry. now apply addDays_prev. }
  destruct (Z.le_gt_cases 0 b).
  - rewrite <- (Z2Nat.id b) by lia. apply Hpos.
  - replace b with (- Z.of_nat (Z.to_nat (- b))) by lia.
    rewrite Hneg. f_equal; lia.
Qed.

Lemma addDays_zero (d : Date) : addDays d 0 = d.
Proof. reflexivity. Qed.

(** The date of the week start has the day number of the week start. *)
Lemma startOfWeekDate_dayNumber (d : Date) :
  validDate d = true ->
  validDate (startOfWeekDate 1 d) = true /\
  dayNumber (startOfWeekDate 1 d) = startOfWeek 1 d.
Proof.
  intros V. unfold startOfWeekDate, startOfWeek. split.
  - now apply addDays_valid_Z.
  - rewrite dayNumber_addDays by assumption. lia.
Qed.

Lemma getDay_startOfWeek (d : Date) :
  validDate d = true -> getDay (startOfWeekDate 1 d) = 1.
Proof.
  intros V. unfold getDay.
  rewrite (proj2 (startOfWeekDate_dayNumber d V)), startOfWeek_monday.
  unfold mondayWeekIndex. Z.div_mod_to_equations. lia.
Qed.

(** The days from the Monday of a date's week reach the date. *)
Lemma weekDays_contains (d : Date) :
  validDate d = true ->
  In d (map (fun i => addDays (startOfWeekDate 1 d) (Z.of_nat i)) (seq 0 7)).
Proof.
  intros V. apply in_map_iff.
  set (diff := (if getDay d <? 1 then 7 else 0) + getDay d - 1).
  assert (Hdiff : 0 <= diff <= 6).
  { unfold diff, getDay. destruct (Z.ltb_spec ((dayNumber d + 4) mod 7) 1);
      Z.div_mod_to_equations; lia. }
  exists (Z.to_nat diff). split.
  - rewrite Z2Nat.id by lia. unfold startOfWeekDate. fold diff.
    rewrite addDays_add by assumption.
    replace (- diff + diff) with 0 by lia. reflexivity.
  - apply in_seq. lia.
Qed.

(** X17. The week strip shows seven consecutive days, Monday first and
    Sunday last, and the date it was asked for is one of them. *)
Theorem getWeekDays_week (startDate : Date) :
  validDate startDate = true ->
  length (getWeekDays startDate) = 7%nat /\
  (forall i d, nth_error (getWeekDays startDate) i = Some d ->
     validDate d = true /\
     dayNumber d = startOfWeek 1 startDate + Z.of_nat i /\
     getDay d = (1 + Z.of_nat i) mod 7) /\
  In startDate (getWeekDays startDate).
Proof.
  intros V. destruct (startOfWeekDate_dayNumber startDate V) as [Vs Hn].
  unfold getWeekDays. split; [|split].
  - now rewrite length_map, length_seq.
  - intros i d Hnth. rewrite nth_error_map in Hnth.
    destruct (nth_error (seq 0 7) i) as [j|] eqn:Hj; [|discriminate].
    simpl in Hnth. inversion Hnth; subst d.
    assert (j = i).
    { pose proof (nth_error_Some (seq 0 7) i) as Hlen. rewrite Hj, length_seq in Hlen.
      assert (Hi : (i < 7)%nat) by (apply Hlen; discriminate).
      rewrite (nth_error_nth' (seq 0 7) 0%nat) in Hj by (now rewrite length_seq).
      rewrite seq_nth in Hj by assumption. inversion Hj. lia. }
    subst j. split; [now apply addDays_valid_Z|].
    rewrite dayNumber_addDays by assumption. rewrite Hn. split; [reflexivity|].
    unfold getDay. rewrite dayNumber_addDays, Hn, startOfWeek_monday by assumption.
    unfold mondayWeekIndex. Z.div_mod_to_equations. lia.
  - now apply weekDays_contains.
Qed.

Lemma getWeekDays_week_witness :
  In (mkDate 2024 1 17) (getWeekDays (mkDate 2024 1 17)).
Proof.
  exact (proj2 (proj2 (getWeekDays_week (mkDate 2024 1 17) eq_refl))).
Defined.

(** X18. The week arrows move the strip by exactly one week and undo
    each other, and a week start that is a Monday stays a Monday. *)
Theorem week_navigation (currentWeekStart : Date) :
  validDate currentWeekStart = true ->
  handlePrevWeek (handleNextWeek currentWeekStart) = currentWeekStart /\
  handleNextWeek (handlePrevWeek currentWeekStart) = currentWeekStart /\
  dayNumber (handleNextWeek currentWeekStart) = dayNumber currentWeekStart + 7 /\
  dayNumber (handlePrevWeek currentWeekStart) = dayNumber currentWeekStart - 7 /\
  getDay (handleNextWeek currentWeekStart) = getDay currentWeekStart /\
  getDay (handlePrevWeek currentWeekStart) = getDay currentWeekStart.
Proof.
  intros V. unfold handlePrevWeek, handleNextWeek, addWeeks.
  repeat split.
  - rewrite addDays_add by assumption. reflexivity.
  - rewrite addDays_add by assumption. reflexivity.
  - rewrite dayNumber_addDays by assumption. lia.
  - rewrite dayNumber_addDays by assumption. lia.
  - unfold getDay. rewrite dayNumber_addDays by assumption.
    Z.div_mod_to_equations. lia.
  - unfold getDay. rewrite dayNumber_addDays by assumption.
    Z.div_mod_to_equations. lia.
Qed.

Lemma week_navigation_witness :
  handlePrevWeek (handleNextWeek (mkDate 2024 2 26)) = mkDate 2024 2 26.
Proof.
  exact (proj1 (week_navigation (mkDate 2024 2 26) eq_refl)).
Defined.

(** X19. Confirming a date in the calendar modal selects it and moves
    the strip to its week: the new week start is a Monday and the
    selected date is the string of one of the seven days shown. *)
Theorem confirmCalendarSelection_shows_selected (modalSelectedDate : string) (d : Date) :
  parseISO modalSelectedDate = Some d -> 1 <= year d ->
  exists start,
    confirmCalendarSelection modalSelectedDate = (modalSelectedDate, Some start) /\
    getDay start = 1 /\
    exists shown, In shown (getWeekDays start) /\ format shown = modalSelectedDate.
Proof.
  intros Hp Hy. pose proof (parseISO_valid _ _ Hp) as V.
  exists (startOfWeekDate 1 d). unfold confirmCalendarSelection, newDateAtMidnight.
  rewrite Hp. split; [reflexivity|]. split; [now apply getDay_startOfWeek|].
  exists d. split; [|now apply format_parseISO].
  destruct (startOfWeekDate_dayNumber d V) as [Vs Hn].
  unfold getWeekDays.
  assert (Hfix : startOfWeekDate 1 (startOfWeekDate 1 d) = startOfWeekDate 1 d).
  { unfold startOfWeekDate at 1. rewrite (getDay_startOfWeek d V). reflexivity. }
  rewrite Hfix. now apply weekDays_contains.
Qed.

Lemma confirmCalendarSelection_shows_selected_witness :
  exists start,
    confirmCalendarSelection "2024-01-17" = ("2024-01-17"%string, Some start) /\
    getDay start = 1 /\
    exists shown, In shown (getWeekDays start) /\ format shown = "2024-01-17"%string.
Proof.
  assert (Hy : 1 <= year (mkDate 2024 1 17)).
  { vm_compute. discriminate. }
  exact (confirmCalendarSelection_shows_selected "2024-01-17" (mkDate 2024 1 17) eq_refl Hy).
Defined.

End WeekStrip.

(* ===================================================================== *)
(** * The time pickers of the event form *)
(* ===================================================================== *)

Section TimePickers.
Import HomeScreen.

(** X20. After either picker reports a date, the start is strictly
    before the end, whatever the form held before; the start picker
    always takes the date, the end picker never moves the start, and a
    dismissed picker changes nothing. *)
Theorem pickers_keep_start_before_end (st : TimeRange) (date : Z) :
  fechaInicio (handleStartDateChange st (Some date)) < fechaFin (handleStartDateChange st (Some date)) /\
  fechaInicio (handleEndDateChange st (Some date)) < fechaFin (handleEndDateChange st (Some date)) /\
  fechaInicio (handleStartDateChange st (Some date)) = date /\
  fechaInicio (handleEndDateChange st (Some date)) = fechaInicio st /\
  (fechaInicio st < date -> fechaFin (handleEndDateChange st (Some date)) = date) /\
  (date < fechaFin st -> fechaFin (handleStartDateChange st (Some date)) = fechaFin st) /\
  handleStartDateChange st None = st /\ handleEndDateChange st None = st.
Proof.
  unfold handleStartDateChange, handleEndDateChange, addHours, MS_PER_HOUR.
  destruct (Z.leb_spec (fechaFin st) date); destruct (Z.leb_spec date (fechaInicio st));
    simpl; repeat split; try lia; reflexivity.
Qed.

End TimePickers.

(* ===================================================================== *)
(** * Joining a video call *)
(* ===================================================================== *)

Section VideoLink.
Import JSString HomeScreen.

Lemma trimStart_head (s : string) (c : ascii) (r : string) :
  trimStart s = String c r -> isWhiteSpace c = false.
Proof.
  induction s as [|d s IH]; simpl; [discriminate|].
  destruct (isWhiteSpace d) eqn:Hd; [exact IH|].
  intros H. inversion H; subst. exact Hd.
Qed.

Lemma trimEnd_cons (c : ascii) (s : string) :
  isWhiteSpace c = false -> trimEnd (String c s) = String c (trimEnd s).
Proof.
  intros Hc. simpl. rewrite Hc. now destruct (trimEnd s).
Qed.

Lemma trimEnd_step (c : ascii) (s : string) :
  trimEnd (String c s) =
    match trimEnd s with
    | EmptyString => if isWhiteSpace c then EmptyString else String c EmptyString
    | kept => String c kept
    end.
Proof. reflexivity. Qed.

Lemma trimEnd_idem (s : string) : trimEnd (trimEnd s) = trimEnd s.
Proof.
  induction s as [|c s IH]; [reflexivity|].
  rewrite (trimEnd_step c s).
  destruct (trimEnd s) as [|k ks] eqn:Hk.
  - destruct (isWhiteSpace c) eqn:Hc; [reflexivity|]. simpl. now rewrite Hc.
  - rewrite (trimEnd_step c (String k ks)), IH. reflexivity.
Qed.

(** A trimmed string has no white space at either end, and trimming it
    again changes nothing. *)
Lemma trim_idem (s : string) : trim (trim s) = trim s.
Proof.
  unfold trim. destruct (trimStart s) as [|c r] eqn:Hs; [reflexivity|].
  pose proof (trimStart_head _ _ _ Hs) as Hc.
  rewrite trimEnd_cons by assumption. simpl trimStart. rewrite Hc.
  rewrite trimEnd_cons by assumption. now rewrite trimEnd_idem.
Qed.

Lemma trim_nonws_head (c : ascii) (r : string) :
  trim (String c r) = String c r -> isWhiteSpace c = false.
Proof.
  unfold trim. simpl trimStart. destruct (isWhiteSpace c) eqn:Hc; [|reflexivity].
  destruct (trimStart r) as [|c' r'] eqn:Hr; [discriminate|].
  pose proof (trimStart_head _ _ _ Hr) as Hc'.
  rewrite trimEnd_cons by assumption. intros H. inversion H; subst. congruence.
Qed.

Lemma https_append (t : string) :
  ("https://" ++ t)%string =
  String "h" (String "t" (String "t" (String "p" (String "s"
    (String ":" (String "/" (String "/" t))))))).
Proof. reflexivity. Qed.

Lemma trim_https (t : string) :
  trim t = t -> trim ("https://" ++ t) = ("https://" ++ t)%string.
Proof.
  intros Ht. rewrite https_append. unfold trim. simpl trimStart.
  change (isWhiteSpace "h") with false. cbv iota.
  repeat (rewrite trimEnd_cons by reflexivity).
  do 8 f_equal.
  destruct t as [|c r]; [reflexivity|].
  pose proof (trim_nonws_head c r Ht) as Hc.
  unfold trim in Ht. simpl trimStart in Ht. rewrite Hc in Ht. exact Ht.
Qed.

Lemma safeUrlOf_cases (url : string) :
  (safeUrlOf url = trim url /\
   (startsWith (trim url) "http://" = true \/ startsWith (trim url) "https://" = true)) \/
  (safeUrlOf url = ("https://" ++ trim url)%string /\
   startsWith (trim url) "http://" = false /\ startsWith (trim url) "https://" = false).
Proof.
  unfold safeUrlOf.
  destruct (startsWith (trim url) "http://") eqn:H1; cbn [negb andb]; [left; auto|].
  destruct (startsWith (trim url) "https://") eqn:H2; cbn [negb andb]; [left; auto|].
  right. auto.
Qed.

Lemma safeUrlOf_scheme (url : string) :
  startsWith (safeUrlOf url) "http://" = true \/
  startsWith (safeUrlOf url) "https://" = true.
Proof.
  destruct (safeUrlOf_cases url) as [[-> H] | [-> _]]; [exact H|].
  right. rewrite https_append. reflexivity.
Qed.

Lemma safeUrlOf_trimmed (url : string) : trim (safeUrlOf url) = safeUrlOf url.
Proof.
  destruct (safeUrlOf_cases url) as [[-> _] | [-> _]].
  - apply trim_idem.
  - apply trim_https, trim_idem.
Qed.

(** X21. The home screen opens a link only for a non-blank address, and
    the link it opens always begins with http:// or https:// and has no
    white space around it; a missing or blank address gives the alert
    and opens nothing. *)
Theorem handleJoinVideo_safe (url : option string) :
  (forall u, handleJoinVideo url = JoinOpen u ->
     (startsWith u "http://" = true \/ startsWith u "https://" = true) /\
     trim u = u /\ u <> EmptyString /\
     exists raw, url = Some raw /\ trim raw <> EmptyString) /\
  ((url = None \/ exists raw, url = Some raw /\ trim raw = EmptyString) ->
   handleJoinVideo url = JoinAlert "No hay enlace de videollamada.").
Proof.
  unfold handleJoinVideo. split.
  - intros u. destruct url as [raw|]; [|discriminate].
    destruct (JS.truthy raw); simpl; [|discriminate].
    destruct (JS.truthy (trim raw)) eqn:Ht; simpl; [|discriminate].
    intros H. inversion H; subst. apply truthy_true in Ht.
    split; [apply safeUrlOf_scheme|]. split; [apply safeUrlOf_trimmed|]. split.
    + destruct (safeUrlOf_cases raw) as [[-> _] | [-> _]];
        [assumption | rewrite https_append; discriminate].
    + now exists raw.
  - intros [-> | (raw & -> & Hb)]; [reflexivity|].
    unfold JS.truthy. rewrite Hb. simpl. now rewrite orb_true_r.
Qed.

(** X22. A trimmed address that already names its scheme is opened as it
    is, and making a link safe twice is the same as once. *)
Theorem safeUrlOf_idempotent (url : string) :
  safeUrlOf (safeUrlOf url) = safeUrlOf url /\
  ((startsWith (trim url) "http://" = true \/ startsWith (trim url) "https://" = true) ->
   safeUrlOf url = trim url).
Proof.
  split.
  - unfold safeUrlOf at 1. rewrite safeUrlOf_trimmed.
    destruct (safeUrlOf_scheme url) as [H | H]; rewrite H; cbn [negb andb]; [reflexivity|].
    now rewrite andb_false_r.
  - intros H. destruct (safeUrlOf_cases url) as [[-> _] | [_ [H1 H2]]]; [reflexivity|].
    destruct H; congruence.
Qed.

(** X23. The join buttons of the two screens open the same link for the
    same address; where the home screen alerts, the summary does
    nothing. *)
Theorem join_buttons_agree (url : option string) (u : string) :
  (summaryJoinVideo url = JoinOpen u <-> handleJoinVideo url = JoinOpen u) /\
  (summaryJoinVideo url = JoinNothing <->
   handleJoinVideo url = JoinAlert "No hay enlace de videollamada.").
Proof.
  unfold summaryJoinVideo, handleJoinVideo.
  destruct url as [raw|]; [|split; split; intros H; (discriminate || reflexivity)].
  destruct (negb (JS.truthy raw) || negb (JS.truthy (trim raw)));
    split; split; intros H; try discriminate; try reflexivity; now inversion H.
Qed.

End VideoLink.

(* ===================================================================== *)
(** * Saving the event form *)
(* ===================================================================== *)

Section SaveForm.
Import DateFns Recurrence JSString HomeScreen.

Lemma orNull_not_empty (s : string) : orNull s <> Some EmptyString.
Proof.
  unfold orNull. destruct (JS.truthy s) eqn:Ht; [|discriminate].
  apply truthy_true in Ht. congruence.
Qed.

(** X24. Saving does nothing exactly when the title is blank; what it
    sends otherwise has the trimmed, non-empty title, the selected date,
    start and end times exactly when the event is not all-day, and a
    video link that is either absent or a trimmed non-empty string. *)
Theorem handleSave_payload (form : EventForm) (selectedDate : string) :
  (handleSave form selectedDate = NoSave <-> trim (f_titulo form) = EmptyString) /\
  (forall t f allDay hi hf v,
     savedFields (handleSave form selectedDate) = Some (t, f, allDay, hi, hf, v) ->
     t = trim (f_titulo form) /\ t <> EmptyString /\ f = selectedDate /\
     allDay = f_esTodoDia form /\
     (allDay = true -> hi = None /\ hf = None) /\
     (allDay = false ->
        hi = Some (formatHHmm (fechaInicio (f_range form))) /\
        hf = Some (formatHHmm (fechaFin (f_range form)))) /\
     (forall link, v = Some link -> link <> EmptyString /\ trim link = link)).
Proof.
  unfold handleSave. destruct (JS.truthy (trim (f_titulo form))) eqn:Ht; simpl.
  - apply truthy_true in Ht. split.
    + split; [|contradiction]. destruct (f_editingEvent form); discriminate.
    + intros t f allDay hi hf v H.
      assert (Hv : forall link, orNull (trim (f_videoUrl form)) = Some link ->
                                link <> EmptyString /\ trim link = link).
      { unfold orNull. intros link. destruct (JS.truthy (trim (f_videoUrl form))) eqn:Hl;
          [|discriminate].
        intros Hs. inversion Hs; subst. apply truthy_true in Hl.
        split; [assumption | apply trim_idem]. }
      destruct (f_editingEvent form); simpl in H; injection H as <- <- <- <- <- <-;
        (split; [reflexivity|]; split; [assumption|]; split; [reflexivity|];
         split; [reflexivity|];
         split; [intros Ha; rewrite Ha; now split|];
         split; [intros Ha; rewrite Ha; now split | exact Hv]).
  - split; [|discriminate]. split; [|reflexivity].
    intros _. destruct (String.eqb_spec (trim (f_titulo form)) EmptyString); [assumption|].
    unfold JS.truthy in Ht. apply negb_false_iff in Ht. now apply String.eqb_eq in Ht.
Qed.

(** X25. Editing keeps the event's identity, owner and exception dates
    but moves its origin to the selected date: whatever date the event
    began on, the saved event has no occurrence on a date before the
    selected one. *)
Theorem handleSave_reanchors (form : EventForm) (selectedDate : string)
        (old saved : Evento) (sel : Date) :
  f_editingEvent form = Some old ->
  handleSave form selectedDate = CallUpdateEvent saved ->
  parseISO selectedDate = Some sel ->
  id saved = id old /\ user_id saved = user_id old /\
  exception_dates saved = exception_dates old /\
  fecha saved = selectedDate /\
  recurrence saved = Some (f_recurrence form) /\
  (forall t tg, parseISO t = Some tg -> dayNumber tg < dayNumber sel ->
                shouldShowOnDate saved t = false).
Proof.
  intros Hed Hsave Hsel. unfold handleSave in Hsave. rewrite Hed in Hsave.
  destruct (negb (JS.truthy (trim (f_titulo form)))); [discriminate|].
  inversion Hsave; subst saved. simpl. repeat split.
  intros t tg Ht Hlt.
  match goal with |- shouldShowOnDate ?e t = false => set (e' := e) end.
  destruct (shouldShowOnDate e' t) eqn:Hs; [|reflexivity].
  apply shouldShowOnDate_true_iff in Hs.
  destruct Hs as (_ & _ & _ & [Heq | (_ & o & tg' & Ho & Htg & Hle & _)]).
  - simpl in Heq. subst t. rewrite Hsel in Ht. inversion Ht; subst. lia.
  - simpl in Ho. rewrite Hsel in Ho. rewrite Ht in Htg.
    inversion Ho; inversion Htg; subst. lia.
Qed.

Lemma handleSave_reanchors_witness :
  shouldShowOnDate
    (mkEvento "b" None "Clase de yoga" "" "2024-02-07" false (Some "00:00"%string)
              (Some "01:00"%string) (Some "meet.example.com/yoga"%string)
              (Some "weekly"%string) (Some ["2024-01-24"%string])) "2024-01-31" = false.
Proof.
  assert (Hlt : dayNumber (mkDate 2024 1 31) < dayNumber (mkDate 2024 2 7)).
  { vm_compute. reflexivity. }
  exact (proj2 (proj2 (proj2 (proj2 (proj2
           (handleSave_reanchors sampleEditForm "2024-02-07" weeklyWithException _
              (mkDate 2024 2 7) eq_refl eq_refl eq_refl)))))
           "2024-01-31" (mkDate 2024 1 31) eq_refl Hlt).
Defined.

End SaveForm.

(* ===================================================================== *)
(** * The task lists *)
(* ===================================================================== *)

Section TaskLists.
Import Todos.

Lemma filter_map_commute {A B} (f : A -> B) (p : B -> bool) (q : A -> bool) (l : list A) :
  (forall a, p (f a) = q a) ->
  List.filter p (map f l) = map f (List.filter q l).
Proof.
  intros H. induction l as [|a l IH]; simpl; [reflexivity|].
  rewrite H. destruct (q a); simpl; now rewrite IH.
Qed.

(** X26. Completing a task, on the instance of the hook that is asked
    and once the store accepts: the list [todos] of that instance loses
    exactly the entries with that id, in place; so does the pending list
    derived from its [allTodos], while the completed list gains them; no
    task is added to or dropped from [allTodos], and the error is
    cleared. *)
Theorem toggleTodo_completes (i : string) (st : State) :
  let st' := toggleTodo i false Done st in
  todos st' = List.filter (fun t => negb (JS.strictEq (id t) i)) (todos st) /\
  pendingTodos (allTodos st') =
    List.filter (fun t => negb (JS.strictEq (id t) i)) (pendingTodos (allTodos st)) /\
  length (allTodos st') = length (allTodos st) /\
  (forall t, In t (allTodos st) -> id t = i ->
             In (withCompletado t true) (completedTodos (allTodos st'))) /\
  error st' = None.
Proof.
  intros st'. subst st'. unfold toggleTodo. simpl.
  assert (Hp : pendingTodos
                 (map (fun t => if JS.strictEq (id t) i then withCompletado t true else t)
                      (allTodos st)) =
               List.filter (fun t => negb (JS.strictEq (id t) i)) (pendingTodos (allTodos st))).
  { unfold pendingTodos. induction (allTodos st) as [|t l IH]; simpl; [reflexivity|].
    destruct (JS.strictEq (id t) i) eqn:Hi; simpl.
    - rewrite IH. destruct (completado t); simpl; [reflexivity | now rewrite Hi].
    - destruct (completado t); simpl; [exact IH | rewrite Hi; simpl; now rewrite IH]. }
  split; [reflexivity|]. split; [exact Hp|].
  split; [apply length_map|]. split; [|reflexivity].
  intros t Ht Hid. unfold completedTodos. apply filter_In. split; [|reflexivity].
  apply in_map_iff. exists t. split; [|assumption].
  subst i. unfold JS.strictEq. now rewrite String.eqb_refl.
Qed.

(** X27. Un-completing a task updates the full list only: the task
    becomes pending in the summary, while the pending list of the home
    screen is left as it was, until it is fetched again. *)
Theorem toggleTodo_reopens (i : string) (st : State) (t : Todo) :
  In t (allTodos st) -> id t = i ->
  let st' := toggleTodo i true Done st in
  In (withCompletado t false) (pendingTodos (allTodos st')) /\
  (forall t', In t' (completedTodos (allTodos st')) -> id t' <> i) /\
  todos st' = todos st.
Proof.
  intros Ht Hid st'. subst st'. unfold toggleTodo. simpl. split; [|split].
  - unfold pendingTodos. apply filter_In. split; [|reflexivity].
    apply in_map_iff. exists t. split; [|assumption].
    subst i. unfold JS.strictEq. now rewrite String.eqb_refl.
  - intros t' Hin. unfold completedTodos in Hin. apply filter_In in Hin.
    destruct Hin as [Hin Hc]. apply in_map_iff in Hin. destruct Hin as (t0 & Ht0 & _).
    destruct (JS.strictEq (id t0) i) eqn:Hi.
    + subst t'. discriminate.
    + subst t'. now apply strictEq_false in Hi.
  - reflexivity.
Qed.

(** X28. Renaming a task never moves it: the pending and the completed
    list of the summary keep their entries in place, those with the
    given id renamed, and the ids and completion flags of the full list
    are unchanged. *)
Theorem updateTodo_renames_in_place (i nuevoTitulo : string) (st : State) :
  let rename := fun t => if JS.strictEq (id t) i then withTitulo t nuevoTitulo else t in
  let st' := updateTodo i nuevoTitulo Done st in
  pendingTodos (allTodos st') = map rename (pendingTodos (allTodos st)) /\
  completedTodos (allTodos st') = map rename (completedTodos (allTodos st)) /\
  todos st' = map rename (todos st) /\
  map id (allTodos st') = map id (allTodos st) /\
  map completado (allTodos st') = map completado (allTodos st) /\
  (forall t, In t (allTodos st') -> id t = i -> titulo t = nuevoTitulo).
Proof.
  intros rename st'. subst st'. unfold updateTodo. simpl. fold rename.
  assert (Hc : forall t, completado (rename t) = completado t).
  { intros t. unfold rename. now destruct (JS.strictEq (id t) i). }
  assert (Hi : forall t, id (rename t) = id t).
  { intros t. unfold rename. now destruct (JS.strictEq (id t) i). }
  split; [|split; [|split; [|split; [|split]]]].
  - unfold pendingTodos. apply filter_map_commute. intros t. now rewrite Hc.
  - unfold completedTodos. apply filter_map_commute. exact Hc.
  - reflexivity.
  - rewrite map_map. apply map_ext. exact Hi.
  - rewrite map_map. apply map_ext. exact Hc.
  - intros t Hin Hid. apply in_map_iff in Hin. destruct Hin as (t0 & <- & _).
    unfold rename in *. destruct (JS.strictEq (id t0) i) eqn:Heq; [reflexivity|].
    apply strictEq_false in Heq. contradiction.
Qed.

(** X29. Toggling a task there and back restores the full list when the
    flag passed is the flag of every entry with that id. *)
Theorem toggleTodo_round_trip (i : string) (c : bool) (st : State) :
  (forall t, In t (allTodos st) -> id t = i -> completado t = c) ->
  allTodos (toggleTodo i (negb c) Done (toggleTodo i c Done st)) = allTodos st.
Proof.
  intros H. unfold toggleTodo. simpl. rewrite map_map.
  rewrite <- (map_id (allTodos st)) at 2. apply map_ext_in.
  intros t Ht. destruct (JS.strictEq (id t) i) eqn:Hi; simpl.
  - rewrite Hi. apply strictEq_true in Hi. specialize (H t Ht Hi).
    destruct t as [a b cc d e]. simpl in *. subst. unfold withCompletado. simpl.
    now rewrite negb_involutive.
  - now rewrite Hi.
Qed.

Lemma toggleTodo_reopens_witness :
  In (withCompletado sampleTodo false)
     (pendingTodos (allTodos (toggleTodo "t1" true Done sampleTodoState))).
Proof.
  assert (Hin : In sampleTodo (allTodos sampleTodoState)).
  { right. now left. }
  exact (proj1 (toggleTodo_reopens "t1" sampleTodoState sampleTodo Hin eq_refl)).
Defined.

Lemma toggleTodo_round_trip_witness :
  allTodos (toggleTodo "t1" (negb true) Done (toggleTodo "t1" true Done sampleTodoState))
  = allTodos sampleTodoState.
Proof.
  apply (toggleTodo_round_trip "t1" true sampleTodoState).
  intros t [<- | [<- | []]]; [discriminate | reflexivity].
Defined.

End TaskLists.
